(** * MedFlow vision services: extraction pipeline

    A shallow embedding of the Python sources under
    [services/vision-brain] (endpoint, orchestrator, inference client,
    response parser, preprocessing pipeline), of [services/vision-service]
    (endpoint, orchestrator, response parser) and of the inference
    handler of [services/vision-gpu], with the properties of the design
    document and further properties of the code proved about them.

    Layout: the embedding comes first (Python strings, the [json] and
    [re] calls the parser relies on, the parsers, the inference client,
    the preprocessing stages, the orchestrators and endpoints, a
    simulated vision library and backend, the vocabulary of the
    statements), then the lemmas. *)

From Stdlib Require Import List ZArith NArith QArith Bool Ascii String Lia.
From Stdlib Require Import Strings.Byte.
From Stdlib Require Import DecimalString.
From Stdlib Require Import Lqa Permutation Sorted.
Import ListNotations.

Local Close Scope Q_scope.
Local Open Scope list_scope.

(* ===================================================================== *)
(** ** Python strings *)
(* ===================================================================== *)

(** A Python [str] is a sequence of Unicode code points. *)
Definition pychar := N.
Definition pystr := list pychar.

(** Text written in this file: the characters of a literal, read as code
    points. *)
Definition py (s : string) : pystr :=
  map N_of_ascii (list_ascii_of_string s).

(** JSON-flavoured text: as [py], with every apostrophe of the literal
    standing for a double quote (code point 34). *)
Definition pyq (s : string) : pystr :=
  map (fun c => if N.eqb c 39 then 34%N else c) (py s).

(** The newline character, as a one-character string. *)
Definition NL : pystr := [10%N].

Fixpoint pystr_eqb (a b : pystr) : bool :=
  match a, b with
  | [], [] => true
  | x :: a', y :: b' => N.eqb x y && pystr_eqb a' b'
  | _, _ => false
  end.

(** [str.isspace] on one character, which is also what [str.strip()]
    removes and what [\s] matches in a [str] pattern. *)
Definition py_isspace (c : pychar) : bool :=
  ((9 <=? c) && (c <=? 13) || (28 <=? c) && (c <=? 32)
   || (c =? 133) || (c =? 160) || (c =? 5760)
   || (8192 <=? c) && (c <=? 8202)
   || (c =? 8232) || (c =? 8233) || (c =? 8239) || (c =? 8287)
   || (c =? 12288))%N.

Fixpoint lstrip (s : pystr) : pystr :=
  match s with
  | [] => []
  | c :: tl => if py_isspace c then lstrip tl else s
  end.

Definition rstrip (s : pystr) : pystr := rev (lstrip (rev s)).

(** [s.strip()] *)
Definition strip (s : pystr) : pystr := rstrip (lstrip s).

(** [s[len(p):]] when [s.startswith(p)]. *)
Fixpoint strip_prefix (p s : pystr) : option pystr :=
  match p with
  | [] => Some s
  | x :: p' =>
      match s with
      | [] => None
      | y :: s' => if N.eqb x y then strip_prefix p' s' else None
      end
  end.

(** [p in s] *)
Fixpoint contains (p s : pystr) : bool :=
  match strip_prefix p s with
  | Some _ => true
  | None => match s with [] => false | _ :: tl => contains p tl end
  end.

(** The same as a proposition: [p] occurs somewhere in [s]. *)
Definition occurs (p s : pystr) : Prop :=
  exists pre post, s = pre ++ p ++ post.

(** [str(n)] for an integer. *)
Definition str_of_int (z : Z) : pystr :=
  py (NilZero.string_of_int (Z.to_int z)).

(* ===================================================================== *)
(** ** Exceptions *)
(* ===================================================================== *)

(** The exceptions that travel through the modelled code.  The two
    classes of [gpu_client.py] are kept apart; everything else
    ([cv2.error], [KeyError], ...) is one more [Exception] subclass. *)
Inductive pyexn : Type :=
| GPUServiceUnavailable (msg : pystr)
| GPUServiceError (msg : pystr)
| OtherException (name : string).

(** A call either returns or raises. *)
Inductive result (A : Type) : Type :=
| Ret (a : A)
| Raise (e : pyexn).
Arguments Ret {A} a.
Arguments Raise {A} e.

Definition bind {A B} (c : result A) (k : A -> result B) : result B :=
  match c with
  | Ret a => k a
  | Raise e => Raise e
  end.

Notation "x <- c ;; k" := (bind c (fun x => k))
  (at level 61, c at next level, right associativity).

(** [try: c  except Exception as e: h e] *)
Definition try_except {A} (c : result A) (h : pyexn -> result A) : result A :=
  match c with
  | Ret a => Ret a
  | Raise e => h e
  end.

(** [str(e)] for the exceptions above. *)
Definition str_of_exn (e : pyexn) : pystr :=
  match e with
  | GPUServiceUnavailable m => m
  | GPUServiceError m => m
  | OtherException n => py n
  end.

(* ===================================================================== *)
(** ** [json.loads] *)
(* ===================================================================== *)

Module Json.

(** What [json.loads] builds.  A [float] is kept as the text it was read
    from; a [dict] is kept in insertion order. *)
#[warnings="-register-all"]
Inductive json : Type :=
| JNull
| JBool (b : bool)
| JInt (z : Z)
| JFloat (lexeme : pystr)
| JString (s : pystr)
| JArray (l : list json)
| JObject (d : list (pystr * json)).

Definition pydict := list (pystr * json).

(** [d[k] = v]: a key already present keeps its place and takes the new
    value, a new key goes last. *)
Fixpoint dict_set (k : pystr) (v : json) (d : pydict) : pydict :=
  match d with
  | [] => [(k, v)]
  | (k', v') :: tl =>
      if pystr_eqb k k' then (k', v) :: tl else (k', v') :: dict_set k v tl
  end.

(** Outcome of a scanner: a value and the text after it, a decode error,
    or recursion budget exhausted. *)
Inductive pres (A : Type) : Type :=
| POk (a : A) (rest : pystr)
| PErr
| PFuel.
Arguments POk {A} a rest.
Arguments PErr {A}.
Arguments PFuel {A}.

(** [WHITESPACE = ' \t\n\r'] *)
Definition is_json_ws (c : pychar) : bool :=
  ((c =? 32) || (c =? 9) || (c =? 10) || (c =? 13))%N.

Fixpoint skip_ws (s : pystr) : pystr :=
  match s with
  | [] => []
  | c :: tl => if is_json_ws c then skip_ws tl else s
  end.

Definition is_digit (c : pychar) : bool := ((48 <=? c) && (c <=? 57))%N.

Definition hex_digit (c : pychar) : option N :=
  if ((48 <=? c) && (c <=? 57))%N then Some (c - 48)%N
  else if ((97 <=? c) && (c <=? 102))%N then Some (c - 87)%N
  else if ((65 <=? c) && (c <=? 70))%N then Some (c - 55)%N
  else None.

Definition hex4 (a b c d : pychar) : option N :=
  match hex_digit a, hex_digit b, hex_digit c, hex_digit d with
  | Some x, Some y, Some z, Some w => Some (((x * 16 + y) * 16 + z) * 16 + w)%N
  | _, _, _, _ => None
  end.

Definition backslash_escape (e : pychar) : option pychar :=
  if (e =? 34)%N then Some 34%N          (* quote *)
  else if (e =? 92)%N then Some 92%N     (* backslash *)
  else if (e =? 47)%N then Some 47%N     (* slash *)
  else if (e =? 98)%N then Some 8%N      (* b: backspace *)
  else if (e =? 102)%N then Some 12%N    (* f: form feed *)
  else if (e =? 110)%N then Some 10%N    (* n: newline *)
  else if (e =? 114)%N then Some 13%N    (* r: carriage return *)
  else if (e =? 116)%N then Some 9%N     (* t: tab *)
  else None.

Definition is_high_surrogate (u : N) : bool := ((55296 <=? u) && (u <=? 56319))%N.
Definition is_low_surrogate (u : N) : bool := ((56320 <=? u) && (u <=? 57343))%N.
Definition join_surrogates (hi lo : N) : N :=
  (65536 + (((hi - 55296) * 1024) + (lo - 56320)))%N.

(** [scanstring], strict mode, entered after the opening quote; [acc]
    holds the characters read so far, last first. *)
Fixpoint scanstring (s : pystr) (acc : pystr) : option (pystr * pystr) :=
  match s with
  | [] => None
  | c :: tl =>
      if (c =? 34)%N then Some (rev acc, tl)
      else if (c =? 92)%N then
        match tl with
        | [] => None
        | e :: tl2 =>
            if (e =? 117)%N then
              match tl2 with
              | h1 :: h2 :: h3 :: h4 :: tl3 =>
                  match hex4 h1 h2 h3 h4 with
                  | None => None
                  | Some uni =>
                      if is_high_surrogate uni then
                        match tl3 with
                        | b :: u :: g1 :: g2 :: g3 :: g4 :: tl4 =>
                            if ((b =? 92) && (u =? 117))%N then
                              match hex4 g1 g2 g3 g4 with
                              | None => None
                              | Some uni2 =>
                                  if is_low_surrogate uni2
                                  then scanstring tl4 (join_surrogates uni uni2 :: acc)
                                  else scanstring tl3 (uni :: acc)
                              end
                            else scanstring tl3 (uni :: acc)
                        | _ => scanstring tl3 (uni :: acc)
                        end
                      else scanstring tl3 (uni :: acc)
                  end
              | _ => None
              end
            else
              match backslash_escape e with
              | Some ch => scanstring tl2 (ch :: acc)
              | None => None
              end
        end
      else if (c <? 32)%N then None
      else scanstring tl (c :: acc)
  end.

(** The longest run of ASCII digits at the head of [s]. *)
Fixpoint span_digits (s : pystr) : pystr * pystr :=
  match s with
  | [] => ([], [])
  | c :: tl =>
      if is_digit c then let (d, r) := span_digits tl in (c :: d, r)
      else ([], s)
  end.

Definition digits_value (d : pystr) : Z :=
  fold_left (fun acc c => (acc * 10 + Z.of_N (c - 48))%Z) d 0%Z.

(** The integer part of [NUMBER_RE]: [0] or [[1-9][0-9]*]. *)
Definition match_integer (s : pystr) : option (pystr * pystr) :=
  match s with
  | [] => None
  | c :: tl =>
      if (c =? 48)%N then Some ([c], tl)
      else if is_digit c then let (d, r) := span_digits tl in Some (c :: d, r)
      else None
  end.

(** The optional fraction: a dot followed by at least one digit. *)
Definition match_frac (s : pystr) : option (pystr * pystr) :=
  match s with
  | dot :: tl =>
      if (dot =? 46)%N then
        match span_digits tl with
        | ([], _) => None
        | (d, r) => Some (dot :: d, r)
        end
      else None
  | [] => None
  end.

(** The optional exponent: [e] or [E], an optional sign, at least one
    digit. *)
Definition match_exp (s : pystr) : option (pystr * pystr) :=
  match s with
  | e :: tl =>
      if ((e =? 101) || (e =? 69))%N then
        match tl with
        | sg :: tl2 =>
            if ((sg =? 43) || (sg =? 45))%N then
              match span_digits tl2 with
              | ([], _) => None
              | (d, r) => Some (e :: sg :: d, r)
              end
            else
              match span_digits tl with
              | ([], _) => None
              | (d, r) => Some (e :: d, r)
              end
        | [] => None
        end
      else None
  | [] => None
  end.

(** A number at the head of [s]: [int] when it has neither fraction nor
    exponent, [float] otherwise. *)
Definition match_number (s : pystr) : pres json :=
  let (neg, s1) :=
    match s with
    | c :: tl => if (c =? 45)%N then (true, tl) else (false, s)
    | [] => (false, s)
    end in
  match match_integer s1 with
  | None => PErr
  | Some (ip, r1) =>
      let (fp, r2) := match match_frac r1 with
                      | Some (f, r) => (f, r)
                      | None => ([], r1)
                      end in
      let (ep, r3) := match match_exp r2 with
                      | Some (e, r) => (e, r)
                      | None => ([], r2)
                      end in
      match fp, ep with
      | [], [] =>
          POk (JInt (if neg then (- digits_value ip)%Z else digits_value ip)) r3
      | _, _ =>
          POk (JFloat ((if neg then [45%N] else []) ++ ip ++ fp ++ ep)) r3
      end
  end.

(** The scanner: one JSON term at the head of [s].  [scan_once],
    [parse_object] (the loop of [JSONObject], entered at a key) and
    [parse_array] (the loop of [JSONArray], entered at an element) call
    one another; [fuel] bounds the depth of calls. *)
Fixpoint scan_once (fuel : nat) (s : pystr) {struct fuel} : pres json :=
  match fuel with
  | O => PFuel
  | S f =>
      match s with
      | [] => PErr
      | c :: tl =>
          if (c =? 34)%N then
            match scanstring tl [] with
            | Some (str, r) => POk (JString str) r
            | None => PErr
            end
          else if (c =? 123)%N then
            match skip_ws tl with
            | [] => PErr
            | c1 :: r1 =>
                if (c1 =? 125)%N then POk (JObject []) r1
                else parse_object f (c1 :: r1) []
            end
          else if (c =? 91)%N then
            match skip_ws tl with
            | [] => PErr
            | c1 :: r1 =>
                if (c1 =? 93)%N then POk (JArray []) r1
                else parse_array f (c1 :: r1) []
            end
          else
            match strip_prefix (py "null") s with
            | Some r => POk JNull r
            | None =>
            match strip_prefix (py "true") s with
            | Some r => POk (JBool true) r
            | None =>
            match strip_prefix (py "false") s with
            | Some r => POk (JBool false) r
            | None =>
            match strip_prefix (py "NaN") s with
            | Some r => POk (JFloat (py "NaN")) r
            | None =>
            match strip_prefix (py "Infinity") s with
            | Some r => POk (JFloat (py "Infinity")) r
            | None =>
            match strip_prefix (py "-Infinity") s with
            | Some r => POk (JFloat (py "-Infinity")) r
            | None => match_number s
            end end end end end end
      end
  end

with parse_object (fuel : nat) (s : pystr) (acc : pydict) {struct fuel} : pres json :=
  match fuel with
  | O => PFuel
  | S f =>
      match s with
      | [] => PErr
      | q :: tl =>
          if (q =? 34)%N then
            match scanstring tl [] with
            | None => PErr
            | Some (key, r1) =>
                match skip_ws r1 with
                | [] => PErr
                | colon :: r2 =>
                    if (colon =? 58)%N then
                      match scan_once f (skip_ws r2) with
                      | POk v r3 =>
                          let acc' := dict_set key v acc in
                          match skip_ws r3 with
                          | [] => PErr
                          | d :: r4 =>
                              if (d =? 125)%N then POk (JObject acc') r4
                              else if (d =? 44)%N then parse_object f (skip_ws r4) acc'
                              else PErr
                          end
                      | PErr => PErr
                      | PFuel => PFuel
                      end
                    else PErr
                end
            end
          else PErr
      end
  end

with parse_array (fuel : nat) (s : pystr) (acc : list json) {struct fuel} : pres json :=
  match fuel with
  | O => PFuel
  | S f =>
      match scan_once f s with
      | POk v r1 =>
          match skip_ws r1 with
          | [] => PErr
          | d :: r2 =>
              if (d =? 93)%N then POk (JArray (acc ++ [v])) r2
              else if (d =? 44)%N then parse_array f (skip_ws r2) (acc ++ [v])
              else PErr
          end
      | PErr => PErr
      | PFuel => PFuel
      end
  end.

(** Depth budget for a text: every call consumes a character, so twice
    the length is never reached. *)
Definition fuel_for (s : pystr) : nat := 2 * List.length s + 2.

(** [JSONDecoder.decode]: leading whitespace, one term, trailing
    whitespace, end of text. *)
Definition decode (s : pystr) : pres json :=
  match scan_once (fuel_for s) (skip_ws s) with
  | POk v r => match skip_ws r with [] => POk v [] | _ :: _ => PErr end
  | PErr => PErr
  | PFuel => PFuel
  end.

(** [json.loads(s)], with [None] standing for [json.JSONDecodeError].
    (CPython's own resource limits, the recursion limit and the cap on
    the digits of an [int], are outside this model.) *)
Definition loads (s : pystr) : option json :=
  match decode s with
  | POk v _ => Some v
  | _ => None
  end.

End Json.

(* ===================================================================== *)
(** ** The three [re] calls of the response parser *)
(* ===================================================================== *)

Module Re.

(** [re.search]: the match at the leftmost position that has one;
    [match_at] gives the match of the pattern anchored at the head of
    its argument. *)
Fixpoint search {A} (match_at : pystr -> option A) (s : pystr) : option A :=
  match match_at s with
  | Some m => Some m
  | None => match s with [] => None | _ :: tl => search match_at tl end
  end.

Definition THINK_OPEN : pystr := py "<think>".
Definition THINK_CLOSE : pystr := py "</think>".

(** Number of characters up to the end of the first occurrence of [p]. *)
Fixpoint find_end (p s : pystr) : option nat :=
  match strip_prefix p s with
  | Some _ => Some (List.length p)
  | None => match s with [] => None | _ :: tl => option_map S (find_end p tl) end
  end.

(** Pattern [<think>.*?</think>] with [re.DOTALL], anchored: the length
    of the match.  The lazy [.*?] stops at the first closing marker. *)
Definition match_think (s : pystr) : option nat :=
  match strip_prefix THINK_OPEN s with
  | Some r => option_map (fun n => List.length THINK_OPEN + n) (find_end THINK_CLOSE r)
  | None => None
  end.

(** [re.sub] with the empty replacement: walk the text; where the pattern
    matches, drop the match ([skip] counts the characters of it still to
    drop) and resume after it; elsewhere keep the character. *)
Fixpoint sub_go (skip : nat) (s : pystr) : pystr :=
  match s with
  | [] => []
  | c :: tl =>
      match skip with
      | S k => sub_go k tl
      | O =>
          match match_think s with
          | Some n => sub_go (pred n) tl
          | None => c :: sub_go 0 tl
          end
      end
  end.

(** [re.sub] of the pattern [<think>.*?</think>] by the empty string,
    with [re.DOTALL]. *)
Definition sub_think (raw : pystr) : pystr := sub_go 0 raw.

Definition FENCE : pystr := py "```".

(** The tail [(.*?)\n?```] of the fence pattern: group 1 is the shortest
    text after which an optional newline and a fence follow. *)
Fixpoint lazy_until_fence (s : pystr) : option pystr :=
  match strip_prefix (NL ++ FENCE) s with
  | Some _ => Some []
  | None =>
      match strip_prefix FENCE s with
      | Some _ => Some []
      | None =>
          match s with
          | [] => None
          | c :: tl => option_map (cons c) (lazy_until_fence tl)
          end
      end
  end.

(** Pattern [```(?:json)?\s*\n?(.*?)\n?```] with [re.DOTALL], anchored:
    group 1.  The greedy choices are final: the tag [json] and the
    whitespace run hold no backquote, so giving some of them back cannot
    produce a closing fence that was not there, and after the longest
    whitespace run [\n?] has nothing to take. *)
Definition fence_at (s : pystr) : option pystr :=
  match strip_prefix FENCE s with
  | None => None
  | Some s1 =>
      let s2 := match strip_prefix (py "json") s1 with
                | Some r => r
                | None => s1
                end in
      lazy_until_fence (lstrip s2)
  end.

(** The tail [[^{}]*\}] of the brace pattern: the text up to and with the
    closing brace, unless an opening brace comes first. *)
Fixpoint brace_body (s : pystr) : option pystr :=
  match s with
  | [] => None
  | c :: tl =>
      if (c =? 125)%N then Some [c]
      else if (c =? 123)%N then None
      else option_map (cons c) (brace_body tl)
  end.

(** Pattern [\{[^{}]*\}], anchored: group 0. *)
Definition brace_at (s : pystr) : option pystr :=
  match s with
  | [] => None
  | c :: tl => if (c =? 123)%N then option_map (cons c) (brace_body tl) else None
  end.

End Re.

(* ===================================================================== *)
(** ** vision-service/extraction.py: the response parser *)
(* ===================================================================== *)

Import Json.

(** [result if isinstance(result, dict)], over the outcome of
    [json.loads] *)
Definition as_dict (r : option json) : option pydict :=
  match r with
  | Some (JObject d) => Some d
  | _ => None
  end.

Module VisionService.

Definition try_parse_json (raw : pystr) : option pydict :=
  (* Try direct parse first *)
  match as_dict (Json.loads (strip raw)) with
  | Some result => Some result
  | None =>
      (* Try to find JSON block in markdown code fences *)
      match
        match Re.search Re.fence_at raw with
        | Some group1 => as_dict (Json.loads (strip group1))
        | None => None
        end
      with
      | Some result => Some result
      | None =>
          (* Try to find first { ... } block *)
          match Re.search Re.brace_at raw with
          | Some group0 => as_dict (Json.loads group0)
          | None => None
          end
      end
  end.

End VisionService.

(* ===================================================================== *)
(** ** vision-brain/models.py *)
(* ===================================================================== *)

Record ExtractionField : Type := {
  key : pystr;
  value : pystr;
  confidence : Q;
  source : pystr
}.

Record ExtractionResponse : Type := {
  document_type : pystr;
  fields : list ExtractionField;
  warnings : list pystr;
  processing_time_ms : Z
}.

(* ===================================================================== *)
(** ** vision-brain/prompts.py *)
(* ===================================================================== *)

(** The prompt table.  Only the opening words of each prompt are written
    out; the rest of the text is static configuration that no code path
    inspects. *)
Definition PROMPTS_table : list (pystr * pystr) :=
  [ (py "personalausweis",
     py "You are analyzing a German national ID card");
    (py "reisepass",
     py "You are analyzing a German passport");
    (py "fuehrerschein",
     py "You are analyzing a German driver's license") ].

(** [d.get(k)] on a table with string keys. *)
Fixpoint dict_get {V} (d : list (pystr * V)) (k : pystr) : option V :=
  match d with
  | [] => None
  | (k', v) :: tl => if pystr_eqb k k' then Some v else dict_get tl k
  end.

(** [PROMPTS.get(doc_type)] *)
Definition PROMPTS (doc_type : pystr) : option pystr :=
  dict_get PROMPTS_table doc_type.

(* ===================================================================== *)
(** ** vision-brain/extraction.py: the response parser *)
(* ===================================================================== *)

Definition BASE_CONFIDENCE : Q := 75 # 100.
Definition BOOSTED_CONFIDENCE : Q := 85 # 100.

(** Known field keys per document type *)
Definition EXPECTED_KEYS_table : list (pystr * list pystr) :=
  [ (py "personalausweis",
     map py ["first_name"; "last_name"; "date_of_birth"; "birth_place";
             "gender"; "nationality"; "document_number"; "expiry_date";
             "street"; "house_number"; "postal_code"; "city";
             "document_type"]%string);
    (py "reisepass",
     map py ["first_name"; "last_name"; "date_of_birth"; "birth_place";
             "gender"; "nationality"; "document_number"; "expiry_date";
             "document_type"]%string);
    (py "fuehrerschein",
     map py ["first_name"; "last_name"; "date_of_birth";
             "document_number"; "expiry_date"; "license_classes";
             "document_type"]%string) ].

(** [EXPECTED_KEYS.get(doc_type, set())] *)
Definition EXPECTED_KEYS (doc_type : pystr) : list pystr :=
  match dict_get EXPECTED_KEYS_table doc_type with
  | Some known => known
  | None => []
  end.

(** [key in known] *)
Definition key_in (k : pystr) (known : list pystr) : bool :=
  existsb (pystr_eqb k) known.

Definition is_empty (s : pystr) : bool :=
  match s with [] => true | _ :: _ => false end.

Definition try_parse_json (raw : pystr) : option pydict :=
  if is_empty raw then None
  else
    (* Strip <think>...</think> blocks *)
    let cleaned := strip (Re.sub_think raw) in
    (* Try direct parse first *)
    match as_dict (Json.loads cleaned) with
    | Some result => Some result
    | None =>
        (* Try to find JSON block in markdown code fences *)
        match
          match Re.search Re.fence_at cleaned with
          | Some group1 => as_dict (Json.loads (strip group1))
          | None => None
          end
        with
        | Some result => Some result
        | None =>
            (* Try to find first { ... } block *)
            match Re.search Re.brace_at cleaned with
            | Some group0 => as_dict (Json.loads group0)
            | None => None
            end
        end
    end.

(** One turn of the loop over [parsed.items()]: [continue] leaves the
    list as it is, otherwise the field is appended. *)
Definition add_field (doc_type : pystr) (known : list pystr)
    (fields : list ExtractionField) (item : pystr * json) : list ExtractionField :=
  let (k, v) := item in
  match v with
  | JString s =>
      if is_empty (strip s) then fields
      else
        (* Boost confidence for keys we explicitly asked for *)
        let c := if key_in k known then BOOSTED_CONFIDENCE else BASE_CONFIDENCE in
        fields ++ [ {| key := k; value := strip s; confidence := c;
                       source := doc_type |} ]
  | _ => fields
  end.

Definition parse_json_from_response (raw doc_type : pystr) : list ExtractionField :=
  match try_parse_json raw with
  | None => []
  | Some parsed =>
      let known := EXPECTED_KEYS doc_type in
      fold_left (add_field doc_type known) parsed []
  end.

(* ===================================================================== *)
(** ** The world outside: counters of what a request has done *)
(* ===================================================================== *)

(** Side effects are observed through three counters: requests posted to
    the inference backend, backoff pauses taken, and runs of the
    preprocessing pipeline. *)
Record world : Type := {
  posts : nat;
  sleeps : nat;
  preprocess_runs : nat
}.

Definition tick_post (w : world) : world :=
  {| posts := S (posts w); sleeps := sleeps w;
     preprocess_runs := preprocess_runs w |}.
Definition tick_sleep (w : world) : world :=
  {| posts := posts w; sleeps := S (sleeps w);
     preprocess_runs := preprocess_runs w |}.
Definition tick_preprocess (w : world) : world :=
  {| posts := posts w; sleeps := sleeps w;
     preprocess_runs := S (preprocess_runs w) |}.

(* ===================================================================== *)
(** ** vision-brain/gpu_client.py *)
(* ===================================================================== *)

(** The JSON body of a backend response, by the fields the client reads
    (section 6 of the design: [detail] and [text] are strings,
    [inference_time_ms] an integer). *)
Record response_body : Type := {
  detail : option pystr;
  text : option pystr;
  inference_time_ms : option Z
}.

(** What [self._client.post("/infer", json=payload)] can do:
    raise one of the [httpx] errors, or return a response. *)
Inductive post_outcome : Type :=
| ConnectError (e : pystr)
| ConnectTimeout (e : pystr)
| ReadTimeout (e : pystr)
| HTTPError (e : pystr)
| Response (status_code : Z) (body : response_body).

(** The request body; [image_b64] holds the image bytes, whose base64
    text is what travels. *)
Record payload : Type := {
  image_b64 : list byte;
  prompt : pystr
}.

(** The backend as the client sees it: the outcome of the n-th request
    (from 0) with a given body. *)
Definition backend := nat -> payload -> post_outcome.

Record GPUClient : Type := {
  _retry_attempts : Z;
  _retry_delay : Q;
  _retry_backoff : Q
}.

(** config.py *)
Definition GPU_RETRY_ATTEMPTS : Z := 3.
Definition GPU_RETRY_DELAY : Q := 5.
Definition GPU_RETRY_BACKOFF : Q := 2.

Definition default_client : GPUClient :=
  {| _retry_attempts := GPU_RETRY_ATTEMPTS;
     _retry_delay := GPU_RETRY_DELAY;
     _retry_backoff := GPU_RETRY_BACKOFF |}.

(** [d.get(k, default)] on an optional field *)
Definition get_default {A} (o : option A) (d : A) : A :=
  match o with Some a => a | None => d end.

(** Send a single inference request to the GPU service. *)
Definition _send_infer (net : backend) (p : payload) (w : world)
  : result (pystr * Z) * world :=
  let w1 := tick_post w in
  match net (posts w) p with
  | ConnectError e | ConnectTimeout e =>
      (Raise (GPUServiceUnavailable (py "Cannot connect to GPU service: " ++ e)), w1)
  | ReadTimeout e =>
      (Raise (GPUServiceUnavailable (py "GPU service read timeout: " ++ e)), w1)
  | HTTPError e =>
      (Raise (GPUServiceError (py "GPU service HTTP error: " ++ e)), w1)
  | Response status_code body =>
      if (status_code =? 503)%Z then
        (Raise (GPUServiceUnavailable
                  (get_default (detail body) (py "Service unavailable"))), w1)
      else if negb (status_code =? 200)%Z then
        (Raise (GPUServiceError
                  (get_default (detail body) (py "HTTP " ++ str_of_int status_code))), w1)
      else
        match text body with
        | None => (Raise (OtherException "KeyError"), w1)
        | Some t => (Ret (t, get_default (inference_time_ms body) 0%Z), w1)
        end
  end.

(** The loop of [tenacity]'s [@retry] around [fn], for
    [retry=retry_if_exception_type(GPUServiceUnavailable)],
    [stop=stop_after_attempt(n)] and [reraise=True].  [remaining] is
    [n - attempt_number] (0 once the stop condition
    [attempt_number >= n] holds): the call is made; a result or any
    other exception leaves the loop at once; on [GPUServiceUnavailable]
    the loop re-raises it when stopped, and otherwise pauses and goes
    round again. *)
Fixpoint retry_call {A} (remaining : nat) (fn : world -> result A * world)
    (w : world) : result A * world :=
  let (r, w1) := fn w in
  match r with
  | Raise (GPUServiceUnavailable m) =>
      match remaining with
      | O => (Raise (GPUServiceUnavailable m), w1)
      | S k => retry_call k fn (tick_sleep w1)
      end
  | _ => (r, w1)
  end.

(** Retry wrapper: the first attempt has [attempt_number = 1]. *)
Definition _infer_with_retry (self : GPUClient) (net : backend) (p : payload)
    (w : world) : result (pystr * Z) * world :=
  retry_call (Z.to_nat (_retry_attempts self - 1)) (_send_infer net p) w.

Definition infer (self : GPUClient) (net : backend)
    (preprocessed_bytes : list byte) (prompt : pystr) (w : world)
  : result (pystr * Z) * world :=
  _infer_with_retry self net
    {| image_b64 := preprocessed_bytes; prompt := prompt |} w.

(* ===================================================================== *)
(** ** vision-brain/preprocessing.py *)
(* ===================================================================== *)

(** Numbers that are Python floats in the source are rationals here. *)
Definition Qltb (a b : Q) : bool := negb (Qle_bool b a).
Definition Qmax2 (a b : Q) : Q := if Qle_bool a b then b else a.
Definition Qabs_val (a : Q) : Q := if Qle_bool 0 a then a else Qopp a.

(** [int(x)]: truncation towards zero. *)
Definition py_int (q : Q) : Z := Z.quot (Qnum q) (Z.pos (Qden q)).

Definition point : Type := (Q * Q)%type.

(** A contour as [cv2] returns it: a sequence of integer points. *)
Definition contour : Type := list (Z * Z).

(** A line segment of [cv2.HoughLinesP]: [x1, y1, x2, y2]. *)
Definition segment : Type := (Z * Z * Z * Z)%type.

(** The computer-vision primitives the pipeline calls.  [ndarray] is a
    pixel grid and [cv2_shape] its [shape[:2]], rows first; any call that
    is a Python call into the library may raise. *)
Record cv2_api : Type := {
  ndarray : Type;
  matrix : Type;
  cv2_shape : ndarray -> Z * Z;
  cv2_imdecode : list byte -> result (option ndarray);
  cv2_imencode_jpg : ndarray -> Z -> result (bool * list byte);
  cv2_cvtColor : ndarray -> string -> result ndarray;
  cv2_GaussianBlur : ndarray -> Z * Z -> Z -> result ndarray;
  cv2_Canny : ndarray -> Z -> Z -> result ndarray;
  cv2_getStructuringElement : Z * Z -> result ndarray;
  cv2_dilate : ndarray -> ndarray -> Z -> result ndarray;
  cv2_findContours : ndarray -> result (list contour);
  cv2_contourArea : contour -> result Q;
  cv2_arcLength : contour -> result Q;
  cv2_approxPolyDP : contour -> Q -> result contour;
  np_linalg_norm : point -> Q;
  cv2_getPerspectiveTransform : list point -> list point -> result matrix;
  cv2_warpPerspective : ndarray -> matrix -> Z * Z -> result ndarray;
  cv2_HoughLinesP : ndarray -> result (option (list segment));
  np_degrees_arctan2 : Z -> Z -> Q;
  cv2_getRotationMatrix2D : Z * Z -> Q -> Q -> result matrix;
  cv2_warpAffine : ndarray -> matrix -> Z * Z -> result ndarray;
  cv2_split : ndarray -> result (ndarray * ndarray * ndarray);
  cv2_CLAHE_apply : ndarray -> result ndarray;
  cv2_merge : ndarray -> ndarray -> ndarray -> result ndarray;
  cv2_resize : ndarray -> Z * Z -> result ndarray
}.

(** Target dimensions for VLM input: width, height *)
Definition TARGET_PORTRAIT : Z * Z := (768, 1024)%Z.
Definition TARGET_LANDSCAPE : Z * Z := (1024, 768)%Z.

(** Index of the first least, resp. greatest, element ([np.argmin],
    [np.argmax]). *)
Fixpoint arg_best (better : Q -> Q -> bool) (l : list Q) (i : nat)
    (best_i : nat) (best : Q) : nat :=
  match l with
  | [] => best_i
  | x :: tl =>
      if better x best then arg_best better tl (S i) i x
      else arg_best better tl (S i) best_i best
  end.

Definition argmin (l : list Q) : nat :=
  match l with
  | [] => O
  | x :: tl => arg_best Qltb tl 1 0 x
  end.

Definition argmax (l : list Q) : nat :=
  match l with
  | [] => O
  | x :: tl => arg_best (fun a b => Qltb b a) tl 1 0 x
  end.

Definition pt_sub (a b : point) : point :=
  (Qminus (fst a) (fst b), Qminus (snd a) (snd b)).

(** Order 4 points as: top-left, top-right, bottom-right, bottom-left. *)
Definition _order_points (pts : list point) : point * point * point * point :=
  let at_ i := nth i pts (0%Q, 0%Q) in
  let s := map (fun p => Qplus (fst p) (snd p)) pts in
  let d := map (fun p => Qminus (snd p) (fst p)) pts in
  (at_ (argmin s), at_ (argmin d), at_ (argmax s), at_ (argmax d)).

(** Stable sort by decreasing key: [sorted(l, key=..., reverse=True)]
    over elements paired with their keys. *)
Fixpoint insert_desc {A} (x : A * Q) (l : list (A * Q)) : list (A * Q) :=
  match l with
  | [] => [x]
  | y :: tl => if Qltb (snd x) (snd y) then y :: insert_desc x tl else x :: l
  end.

Definition sort_desc {A} (l : list (A * Q)) : list (A * Q) :=
  fold_right insert_desc [] l.

Fixpoint insert_asc (x : Q) (l : list Q) : list Q :=
  match l with
  | [] => [x]
  | y :: tl => if Qltb y x then y :: insert_asc x tl else x :: l
  end.

(** [np.median] of a non-empty list. *)
Definition median (l : list Q) : Q :=
  let s := fold_right insert_asc [] l in
  let n := List.length s in
  if Nat.even n
  then Qdiv (Qplus (nth (n / 2 - 1) s 0%Q) (nth (n / 2) s 0%Q)) 2
  else nth (n / 2) s 0%Q.

(** [[f(x) for x in l]] when [f] may raise. *)
Fixpoint map_result {A B} (f : A -> result B) (l : list A) : result (list B) :=
  match l with
  | [] => Ret []
  | x :: tl => y <- f x ;; ys <- map_result f tl ;; Ret (y :: ys)
  end.

Section Pipeline.

Variable cv : cv2_api.

Local Abbreviation image := (ndarray cv).

(** Decode raw bytes into an OpenCV BGR array. *)
Definition _decode (image_bytes : list byte) : result (option image) :=
  cv2_imdecode cv image_bytes.

(** Width and height of the destination rectangle: the longer of the two
    opposing edges, as an integer. *)
Definition dst_width (rect : point * point * point * point) : Z :=
  let '(tl, tr, br, bl) := rect in
  let width_a := np_linalg_norm cv (pt_sub br bl) in
  let width_b := np_linalg_norm cv (pt_sub tr tl) in
  py_int (Qmax2 width_a width_b).

Definition dst_height (rect : point * point * point * point) : Z :=
  let '(tl, tr, br, bl) := rect in
  let height_a := np_linalg_norm cv (pt_sub tr br) in
  let height_b := np_linalg_norm cv (pt_sub tl bl) in
  py_int (Qmax2 height_a height_b).

(** Apply perspective transform to extract the document region. *)
Definition _perspective_transform (img : image)
    (rect : point * point * point * point) : result (option image) :=
  let '(tl, tr, br, bl) := rect in
  let max_width := dst_width rect in
  let max_height := dst_height rect in
  if ((max_width <? 100) || (max_height <? 100))%Z then Ret None
  else
    let dst := [ (0%Q, 0%Q);
                 (inject_Z (max_width - 1), 0%Q);
                 (inject_Z (max_width - 1), inject_Z (max_height - 1));
                 (0%Q, inject_Z (max_height - 1)) ] in
    m <- cv2_getPerspectiveTransform cv [tl; tr; br; bl] dst ;;
    out <- cv2_warpPerspective cv img m (max_width, max_height) ;;
    Ret (Some out).

(** The loop [for contour in contours[:5]] of [_crop_document]:
    [Some dst] when an iteration returns, [None] when the loop runs
    out. *)
Fixpoint crop_loop (img : image) (contours : list contour)
  : result (option image) :=
  match contours with
  | [] => Ret None
  | c :: rest =>
      peri <- cv2_arcLength cv c ;;
      approx <- cv2_approxPolyDP cv c (Qmult (2 # 100) peri) ;;
      if Nat.eqb (List.length approx) 4 then
        (* Check that the contour covers at least 20% of the image *)
        area <- cv2_contourArea cv approx ;;
        let '(h, w) := cv2_shape cv img in
        if (h * w =? 0)%Z then Raise (OtherException "ZeroDivisionError")
        else
          let area_ratio := Qdiv area (inject_Z (h * w)) in
          if Qltb area_ratio (2 # 10) then crop_loop img rest
          else
            let pts := map (fun p => (inject_Z (fst p), inject_Z (snd p))) approx in
            let rect := _order_points pts in
            dst <- _perspective_transform img rect ;;
            match dst with
            | Some d => Ret (Some d)
            | None => crop_loop img rest
            end
      else crop_loop img rest
  end.

(** Detect the largest quadrilateral contour and perspective-crop to it. *)
Definition _crop_document (img : image) : result image :=
  try_except
    (gray <- cv2_cvtColor cv img "COLOR_BGR2GRAY" ;;
     blurred <- cv2_GaussianBlur cv gray (5, 5)%Z 0%Z ;;
     edges <- cv2_Canny cv blurred 50%Z 150%Z ;;
     (* Dilate to close gaps in edges *)
     kernel <- cv2_getStructuringElement cv (3, 3)%Z ;;
     edges <- cv2_dilate cv edges kernel 1%Z ;;
     contours <- cv2_findContours cv edges ;;
     match contours with
     | [] => Ret img
     | _ :: _ =>
         (* Find largest contour by area *)
         areas <- map_result (cv2_contourArea cv) contours ;;
         let contours := map fst (sort_desc (combine contours areas)) in
         found <- crop_loop img (firstn 5 contours) ;;
         match found with
         | Some dst => Ret dst
         | None => Ret img
         end
     end)
    (fun _ => Ret img).

(** Correct rotation if > 5 degrees detected via Hough line transform. *)
Definition _deskew (img : image) : result image :=
  try_except
    (gray <- cv2_cvtColor cv img "COLOR_BGR2GRAY" ;;
     edges <- cv2_Canny cv gray 50%Z 150%Z ;;
     lines <- cv2_HoughLinesP cv edges ;;
     match lines with
     | None => Ret img
     | Some lines =>
         if Nat.ltb (List.length lines) 3 then Ret img
         else
           let angles :=
             filter (fun a => Qltb (Qabs_val a) 45)
               (map (fun l : segment =>
                       let '(x1, y1, x2, y2) := l in
                       np_degrees_arctan2 cv (y2 - y1)%Z (x2 - x1)%Z) lines) in
           match angles with
           | [] => Ret img
           | _ :: _ =>
               let median_angle := median angles in
               if Qltb (Qabs_val median_angle) 5 then Ret img
               else
                 let '(h, w) := cv2_shape cv img in
                 let center := (w / 2, h / 2)%Z in
                 m <- cv2_getRotationMatrix2D cv center median_angle 1 ;;
                 cv2_warpAffine cv img m (w, h)
           end
     end)
    (fun _ => Ret img).

(** Apply CLAHE to the L channel in LAB color space. *)
Definition _clahe_normalize (img : image) : result image :=
  try_except
    (lab <- cv2_cvtColor cv img "COLOR_BGR2LAB" ;;
     lab_channels <- cv2_split cv lab ;;
     let '(l_channel, a_channel, b_channel) := lab_channels in
     l_channel <- cv2_CLAHE_apply cv l_channel ;;
     lab <- cv2_merge cv l_channel a_channel b_channel ;;
     cv2_cvtColor cv lab "COLOR_LAB2BGR")
    (fun _ => Ret img).

(** [abs(x - target) / target < 0.1].  The quotient and the bound are
    floats in the source; for the two targets 768 and 1024 no integer
    distance comes near the bound (76.8 and 102.4), so the comparison of
    the exact quotient with 1/10 decides the same. *)
Definition within_tenth (x target : Z) : bool :=
  Qltb (Qdiv (inject_Z (Z.abs (x - target))) (inject_Z target)) (1 # 10).

(** Resize to optimal dimensions for VLM token efficiency. *)
Definition _resize (img : image) : result image :=
  try_except
    (let '(h, w) := cv2_shape cv img in
     let is_landscape := (h <? w)%Z in
     let '(target_w, target_h) :=
       if is_landscape then TARGET_LANDSCAPE else TARGET_PORTRAIT in
     (* Only resize if significantly different (>10% off) *)
     if within_tenth w target_w && within_tenth h target_h then Ret img
     else cv2_resize cv img (target_w, target_h))
    (fun _ => Ret img).

(** Encode image as JPEG bytes. *)
Definition _encode (img : image) (fallback : list byte) : result (list byte) :=
  try_except
    (r <- cv2_imencode_jpg cv img 95%Z ;;
     let '(success, buf) := r in
     if success then Ret buf else Ret fallback)
    (fun _ => Ret fallback).

(** Run the full preprocessing pipeline on raw image bytes. *)
Definition preprocess (image_bytes : list byte) : result (list byte) :=
  img <- _decode image_bytes ;;
  match img with
  | None => Ret image_bytes
  | Some img =>
      img <- _crop_document img ;;
      img <- _deskew img ;;
      img <- _clahe_normalize img ;;
      img <- _resize img ;;
      _encode img image_bytes
  end.

End Pipeline.

(* ===================================================================== *)
(** ** vision-brain/extraction.py: the orchestrator *)
(* ===================================================================== *)

Section Orchestrator.

Variable cv : cv2_api.

(** [time.monotonic()], in seconds, as a function of how far the request
    has got. *)
Variable monotonic : world -> Q.

Definition elapsed_ms_since (start : Q) (w : world) : Z :=
  py_int (Qmult (Qminus (monotonic w) start) 1000).

(** Run extraction pipeline: preprocess -> GPU inference -> parse. *)
Definition extract_from_image (image_bytes : list byte) (doc_type : pystr)
    (gpu_client : GPUClient) (net : backend) (w : world)
  : result ExtractionResponse * world :=
  let start := monotonic w in
  match PROMPTS doc_type with
  | None =>
      (Ret {| document_type := doc_type;
              fields := [];
              warnings := [py "No prompt defined for document type: " ++ doc_type];
              processing_time_ms := 0 |}, w)
  | Some prompt =>
      (* Preprocess image (crop, deskew, CLAHE, resize) *)
      let w1 := tick_preprocess w in
      match preprocess cv image_bytes with
      | Raise e => (Raise e, w1)
      | Ret preprocessed =>
          (* Call GPU service for inference *)
          let warnings := [] in
          match infer gpu_client net preprocessed prompt w1 with
          | (Raise (GPUServiceUnavailable m), w2) =>
              let elapsed_ms := elapsed_ms_since start w2 in
              (Ret {| document_type := doc_type;
                      fields := [];
                      warnings := [py "GPU inference service unavailable: " ++ m];
                      processing_time_ms := elapsed_ms |}, w2)
          | (Raise (GPUServiceError m), w2) =>
              let elapsed_ms := elapsed_ms_since start w2 in
              (Ret {| document_type := doc_type;
                      fields := [];
                      warnings := [py "GPU inference failed: " ++ m];
                      processing_time_ms := elapsed_ms |}, w2)
          | (Raise e, w2) => (Raise e, w2)
          | (Ret (raw_text, inference_ms), w2) =>
              (* Parse JSON from model output *)
              let fields := parse_json_from_response raw_text doc_type in
              let elapsed_ms := elapsed_ms_since start w2 in
              let warnings :=
                match fields with
                | [] =>
                    warnings ++
                    [py "Could not extract any fields from the image. " ++
                     py "The image may be unclear or the document type may not match."]
                | _ :: _ => warnings
                end in
              (Ret {| document_type := doc_type;
                      fields := fields;
                      warnings := warnings;
                      processing_time_ms := elapsed_ms |}, w2)
          end
      end
  end.

End Orchestrator.

(* ===================================================================== *)
(** ** vision-brain/main.py *)
(* ===================================================================== *)

Module BrainMain.

(** What the endpoint answers: a JSON error reply with its status code
    and detail, or the extraction result. *)
Inductive reply : Type :=
| JSONResponse (status_code : Z) (detail : pystr)
| Result (r : ExtractionResponse).



(** The module globals [_gpu_client] and [_gpu_available]. *)
Record globals : Type := {
  _gpu_client : option GPUClient;
  _gpu_available : bool
}.

Definition at_import : globals :=
  {| _gpu_client := None; _gpu_available := false |}.


Section Endpoint.

Variable cv : cv2_api.
Variable monotonic : world -> Q.

(** [POST /api/v1/extract]: extract structured fields from a document
    image. *)
Definition extract (g : globals) (file : list byte) (document_type : pystr)
    (net : backend) (w : world) : result reply * world :=
  match _gpu_available g, _gpu_client g with
  | true, Some gpu_client =>
      let image_bytes := file in
      match image_bytes with
      | [] => (Ret (JSONResponse 400 (py "Empty file uploaded")), w)
      | _ :: _ =>
          match extract_from_image cv monotonic image_bytes document_type
                  gpu_client net w with
          | (Ret result, w') => (Ret (Result result), w')
          | (Raise e, w') => (Raise e, w')
          end
      end
  | _, _ =>
      (Ret (JSONResponse 503
              (py "AI document extraction is not available - no GPU service configured")),
       w)
  end.

End Endpoint.

End BrainMain.

(* ===================================================================== *)
(** ** vision-service: extraction.py and main.py *)
(* ===================================================================== *)

Module VisionServiceApp.

(** prompts.py of the service: the same three document types, by the
    opening words of each prompt. *)
Definition PROMPTS_table : list (pystr * pystr) :=
  [ (py "personalausweis",
     py "You are analyzing a German national ID card");
    (py "reisepass",
     py "You are analyzing a German passport");
    (py "fuehrerschein",
     py "You are analyzing a German driver's license") ].

Definition PROMPTS (doc_type : pystr) : option pystr :=
  dict_get PROMPTS_table doc_type.

(** Known field keys per document type *)
Definition expected_keys_table : list (pystr * list pystr) :=
  [ (py "personalausweis",
     map py ["first_name"; "last_name"; "date_of_birth"; "gender";
             "nationality"; "document_number"; "expiry_date";
             "document_type"]%string);
    (py "reisepass",
     map py ["first_name"; "last_name"; "date_of_birth"; "gender";
             "nationality"; "document_number"; "expiry_date";
             "document_type"]%string);
    (py "fuehrerschein",
     map py ["first_name"; "last_name"; "date_of_birth";
             "document_number"; "expiry_date"; "license_classes";
             "document_type"]%string) ].

(** [expected_keys.get(doc_type, set())] *)
Definition expected_keys (doc_type : pystr) : list pystr :=
  match dict_get expected_keys_table doc_type with
  | Some known => known
  | None => []
  end.

(** Extract JSON from the model's response text and convert to
    ExtractionFields; the loop body is that of vision-brain. *)
Definition parse_json_from_response (raw doc_type : pystr) : list ExtractionField :=
  match VisionService.try_parse_json raw with
  | None => []
  | Some parsed =>
      let known := expected_keys doc_type in
      fold_left (add_field doc_type known) parsed []
  end.

(** What [client.chat(...)] can do: raise, or return a response whose
    [message.content] is a string or [None]. *)
Definition chat := nat -> payload -> result (option pystr).

Section Service.

Variable monotonic : world -> Q.

(** Send image to Ollama vision model and parse the structured
    response. *)
Definition extract_from_image (image_bytes : list byte) (doc_type : pystr)
    (ollama : chat) (w : world) : ExtractionResponse * world :=
  let start := monotonic w in
  match PROMPTS doc_type with
  | None =>
      ({| document_type := doc_type;
          fields := [];
          warnings := [py "No prompt defined for document type: " ++ doc_type];
          processing_time_ms := 0 |}, w)
  | Some prompt =>
      let w1 := tick_post w in
      match ollama (posts w) {| image_b64 := image_bytes; prompt := prompt |} with
      | Raise e =>
          let elapsed_ms := py_int (Qmult (Qminus (monotonic w1) start) 1000) in
          ({| document_type := doc_type;
              fields := [];
              warnings := [py "Vision model inference failed: " ++ str_of_exn e];
              processing_time_ms := elapsed_ms |}, w1)
      | Ret content =>
          let raw_content := get_default content [] in
          let fields := parse_json_from_response raw_content doc_type in
          let elapsed_ms := py_int (Qmult (Qminus (monotonic w1) start) 1000) in
          let warnings :=
            match fields with
            | [] =>
                [py "Could not extract any fields from the image. The image may be unclear or the document type may not match."]
            | _ :: _ => []
            end in
          ({| document_type := doc_type;
              fields := fields;
              warnings := warnings;
              processing_time_ms := elapsed_ms |}, w1)
      end
  end.

(** [POST /api/v1/extract] of the service. *)
Definition extract (file : list byte) (document_type : pystr)
    (ollama : chat) (w : world) : BrainMain.reply * world :=
  match file with
  | [] => (BrainMain.JSONResponse 400 (py "Empty file uploaded"), w)
  | _ :: _ =>
      let (result, w') := extract_from_image file document_type ollama w in
      (BrainMain.Result result, w')
  end.

End Service.

End VisionServiceApp.

(* ===================================================================== *)
(** ** vision-gpu: engine.py and main.py *)
(* ===================================================================== *)

Module VisionGpu.

(** The engine, by what the service uses of it: its model id and
    [extract], which runs the model and may raise. *)
Record VisionEngine : Type := {
  model_id : pystr;
  engine_extract : list byte -> pystr -> result pystr
}.

(** Get the initialized engine. Raises if not initialized. *)
Definition get_engine (_engine : option VisionEngine) : result VisionEngine :=
  match _engine with
  | None => Raise (OtherException "RuntimeError")
  | Some e => Ret e
  end.

(** The module state: [_model_ready] of main.py and [_engine] of
    engine.py. *)
Record state : Type := {
  _model_ready : bool;
  _engine : option VisionEngine
}.

Definition at_import : state := {| _model_ready := false; _engine := None |}.


Record InferRequest : Type := {
  req_image_b64 : pystr;
  req_prompt : pystr
}.

Inductive reply : Type :=
| JSONResponse (status_code : Z) (detail : pystr)
| InferResponse (text : pystr) (model_id : pystr) (inference_time_ms : Z).

Section Service.

(** [base64.b64decode], which raises on text that is no base64. *)
Variable b64decode : pystr -> result (list byte).

(** Milliseconds the engine call took, from the clock. *)
Variable elapsed_ms : Z.

(** [POST /infer]: run vision inference on a preprocessed image. *)
Definition infer (s : state) (req : InferRequest) : result reply :=
  if negb (_model_ready s) then
    Ret (JSONResponse 503 (py "Model is still loading, please retry"))
  else
    match b64decode (req_image_b64 req) with
    | Raise _ => Ret (JSONResponse 400 (py "Invalid base64 image data"))
    | Ret image_bytes =>
        engine <- get_engine (_engine s) ;;
        match engine_extract engine image_bytes (req_prompt req) with
        | Raise e =>
            Ret (JSONResponse 500 (py "Inference failed: " ++ str_of_exn e))
        | Ret raw_text =>
            Ret (InferResponse raw_text (model_id engine) elapsed_ms)
        end
    end.

(** [base64.b64encode(...).decode()] on the client's side. *)
Variable b64encode : list byte -> pystr.



End Service.

End VisionGpu.

(* ===================================================================== *)
(** ** A simulated vision library and backend, for running the code *)
(* ===================================================================== *)

Module Sim.

(** A synthetic image: its size, the outlines an edge detector finds in
    it and the line segments a Hough transform finds in it. *)
Record sim_image : Type := {
  rows : nat;
  cols : nat;
  outlines : list contour;
  segments : list segment
}.

Definition blank (h w : Z) : sim_image :=
  {| rows := Z.to_nat h; cols := Z.to_nat w; outlines := []; segments := [] |}.

(** The codec of the simulation: [rows] bytes 01, one byte 00, [cols]
    bytes 01.  A byte sequence of another form is not an image. *)
Fixpoint count_ones (b : list byte) : nat * list byte :=
  match b with
  | x01 :: tl => let (n, r) := count_ones tl in (S n, r)
  | _ => (O, b)
  end.

Definition encode_shape (h w : nat) : list byte :=
  repeat x01 h ++ x00 :: repeat x01 w.

(** As OpenCV does, decoding asserts a non-empty buffer (the Python
    binding raises [cv2.error]) and returns no image for bytes that are
    not an image. *)
Definition imdecode (b : list byte) : result (option sim_image) :=
  match b with
  | [] => Raise (OtherException "cv2.error")
  | _ :: _ =>
      match count_ones b with
      | (S h, x00 :: r) =>
          match count_ones r with
          | (S w, []) =>
              Ret (Some {| rows := S h; cols := S w; outlines := []; segments := [] |})
          | _ => Ret None
          end
      | _ => Ret None
      end
  end.

Definition imencode_jpg (img : sim_image) (quality : Z) : result (bool * list byte) :=
  match rows img, cols img with
  | S _, S _ => Ret (true, encode_shape (rows img) (cols img))
  | _, _ => Raise (OtherException "cv2.error")
  end.

(** Twice the area enclosed by a polygon (shoelace formula). *)
Fixpoint shoelace (first : Z * Z) (c : contour) : Z :=
  match c with
  | [] => 0
  | p :: tl =>
      let q := match tl with [] => first | q :: _ => q end in
      (fst p * snd q - fst q * snd p + shoelace first tl)%Z
  end.

Definition contourArea (c : contour) : result Q :=
  match c with
  | [] => Ret 0%Q
  | p :: _ => Ret (Qmake (Z.abs (shoelace p c)) 2)
  end.

(** Length of a vector whose direction is parallel to an axis; the
    simulation is only run on such vectors. *)
Definition norm (v : point) : Q := Qplus (Qabs_val (fst v)) (Qabs_val (snd v)).

Fixpoint perimeter (first : Z * Z) (c : contour) : Q :=
  match c with
  | [] => 0%Q
  | p :: tl =>
      let q := match tl with [] => first | q :: _ => q end in
      Qplus (norm (inject_Z (fst q - fst p), inject_Z (snd q - snd p)))
            (perimeter first tl)
  end.

Definition arcLength (c : contour) : result Q :=
  match c with
  | [] => Ret 0%Q
  | p :: _ => Ret (perimeter p c)
  end.

(** A new image of the size asked for; [cv2] rejects an empty size. *)
Definition sized (dsize : Z * Z) : result sim_image :=
  let (w, h) := dsize in
  if ((0 <? w) && (0 <? h))%Z then Ret (blank h w)
  else Raise (OtherException "cv2.error").

Definition cv2 : cv2_api := {|
  ndarray := sim_image;
  matrix := unit;
  cv2_shape := fun img => (Z.of_nat (rows img), Z.of_nat (cols img));
  cv2_imdecode := imdecode;
  cv2_imencode_jpg := imencode_jpg;
  cv2_cvtColor := fun img _ => Ret img;
  cv2_GaussianBlur := fun img _ _ => Ret img;
  cv2_Canny := fun img _ _ => Ret img;
  cv2_getStructuringElement := fun ksize => Ret (blank (snd ksize) (fst ksize));
  cv2_dilate := fun img _ _ => Ret img;
  cv2_findContours := fun img => Ret (outlines img);
  cv2_contourArea := contourArea;
  cv2_arcLength := arcLength;
  cv2_approxPolyDP := fun c _ => Ret c;
  np_linalg_norm := norm;
  cv2_getPerspectiveTransform := fun _ _ => Ret tt;
  cv2_warpPerspective := fun _ _ dsize => sized dsize;
  cv2_HoughLinesP :=
    fun img => Ret (match segments img with [] => None | l => Some l end);
  np_degrees_arctan2 := fun dy dx => if (dy =? 0)%Z then 0%Q else 90%Q;
  cv2_getRotationMatrix2D := fun _ _ _ => Ret tt;
  cv2_warpAffine := fun _ _ dsize => sized dsize;
  cv2_split := fun img => Ret (img, img, img);
  cv2_CLAHE_apply := fun img => Ret img;
  cv2_merge := fun l _ _ => Ret l;
  cv2_resize := fun _ dsize => sized dsize
|}.

(** An axis-parallel rectangle as a four-point outline. *)
Definition rectangle (x y w h : Z) : contour :=
  [ (x, y); (x + w, y); (x + w, y + h); (x, y + h) ]%Z.

(** A 400 x 400 picture showing two rectangles: one 390 wide and 90 high,
    one 300 wide and 110 high. *)
Definition two_rectangles : sim_image :=
  {| rows := 400; cols := 400;
     outlines := [ rectangle 0 200 300 110; rectangle 0 0 390 90 ];
     segments := [] |}.

(** A 400 x 400 picture showing one rectangle, 390 wide and 90 high. *)
Definition flat_rectangle : sim_image :=
  {| rows := 400; cols := 400;
     outlines := [ rectangle 0 0 390 90 ];
     segments := [] |}.

(** A 500 x 700 picture showing a card 500 wide and 340 high. *)
Definition card_on_table : sim_image :=
  {| rows := 500; cols := 700;
     outlines := [ rectangle 100 80 500 340 ];
     segments := [] |}.

(** A clock that moves 10 ms with every request posted and one second
    with every backoff pause. *)
Definition clock (w : world) : Q :=
  Qplus (Qmake (Z.of_nat (posts w)) 100) (inject_Z (Z.of_nat (sleeps w))).

Definition body_detail (d : string) : response_body :=
  {| detail := Some (py d); text := None; inference_time_ms := None |}.

Definition body_text (t : pystr) (ms : Z) : response_body :=
  {| detail := None; text := Some t; inference_time_ms := Some ms |}.

(** Backends: one that is loading its model for ever, one that fails for
    good, one that loads once and then answers. *)
Definition always_unavailable : backend :=
  fun _ _ => Response 503 (body_detail "Model loading").

Definition internal_error : backend :=
  fun _ _ => Response 500 (body_detail "Internal error").

Definition loading_once_then (t : pystr) : backend :=
  fun n _ => match n with
             | O => Response 503 (body_detail "Model loading")
             | S _ => Response 200 (body_text t 100)
             end.

Definition w0 : world := {| posts := 0; sleeps := 0; preprocess_runs := 0 |}.

End Sim.

(* ===================================================================== *)
(** ** Vocabulary of the properties *)
(* ===================================================================== *)

(** The four failure conditions the orchestrator detects, read off the
    calls it makes. *)
Definition failure_detected (cv : cv2_api) (image_bytes : list byte) (doc_type : pystr)
    (gpu_client : GPUClient) (net : backend) (w : world) : Prop :=
  PROMPTS doc_type = None
  \/ exists prompt preprocessed,
       PROMPTS doc_type = Some prompt /\
       preprocess cv image_bytes = Ret preprocessed /\
       let r := fst (infer gpu_client net preprocessed prompt (tick_preprocess w)) in
       (exists m, r = Raise (GPUServiceUnavailable m))
       \/ (exists m, r = Raise (GPUServiceError m))
       \/ (exists raw_text ms,
             r = Ret (raw_text, ms) /\
             parse_json_from_response raw_text doc_type = []).

(** What the attempt that is request number [k] of the backend does. *)
Definition attempt (net : backend) (p : payload) (k : nat) : result (pystr * Z) :=
  fst (_send_infer net p {| posts := k; sleeps := 0; preprocess_runs := 0 |}).

Definition is_unavailable {A} (r : result A) : Prop :=
  exists m, r = Raise (GPUServiceUnavailable m).

(** The field builder as the design words it: a pair is kept when its
    value is a string that is not empty after trimming; a kept pair
    becomes a field with the trimmed value, confidence 0.85 for an
    expected key and 0.75 otherwise, and the document type as source. *)
Definition kept_value (v : json) : option pystr :=
  match v with
  | JString s => if is_empty (strip s) then None else Some (strip s)
  | _ => None
  end.

Definition keeps (v : json) : bool :=
  match kept_value v with Some _ => true | None => false end.

Definition field_of (doc_type : pystr) (item : pystr * json) : option ExtractionField :=
  match kept_value (snd item) with
  | Some trimmed =>
      Some {| key := fst item; value := trimmed;
              confidence := if key_in (fst item) (EXPECTED_KEYS doc_type)
                            then 85 # 100 else 75 # 100;
              source := doc_type |}
  | None => None
  end.

Fixpoint buildFields_spec (parsed : pydict) (doc_type : pystr) : list ExtractionField :=
  match parsed with
  | [] => []
  | item :: rest =>
      match field_of doc_type item with
      | Some f => f :: buildFields_spec rest doc_type
      | None => buildFields_spec rest doc_type
      end
  end.

(** What the pipeline needs of the vision library to say anything about
    image sizes: a resize to a non-empty size returns an image of that
    size, a perspective warp that returns gives the size asked for, and
    JPEG encoding of a non-empty image succeeds and decodes back to an
    image of the same shape. *)
Record cv2_sizes (cv : cv2_api) : Prop := {
  resize_size :
    forall img tw th, (0 < tw)%Z -> (0 < th)%Z ->
      exists out, cv2_resize cv img (tw, th) = Ret out /\ cv2_shape cv out = (th, tw);
  warp_size :
    forall img m w h out,
      cv2_warpPerspective cv img m (w, h) = Ret out -> cv2_shape cv out = (h, w);
  codec_shape :
    forall img, (0 < fst (cv2_shape cv img))%Z -> (0 < snd (cv2_shape cv img))%Z ->
      exists buf img',
        cv2_imencode_jpg cv img 95 = Ret (true, buf) /\
        cv2_imdecode cv buf = Ret (Some img') /\
        cv2_shape cv img' = cv2_shape cv img
}.

(** The preset the resize stage picks for an image of [h] rows and [w]
    columns, as (width, height). *)
Definition resize_target (h w : Z) : Z * Z :=
  if (h <? w)%Z then TARGET_LANDSCAPE else TARGET_PORTRAIT.

(** Both dimensions within 10% of the preset. *)
Definition near_target (h w : Z) : bool :=
  within_tenth w (fst (resize_target h w)) && within_tenth h (snd (resize_target h w)).

(** The quadrilateral the crop loop builds from a contour, when the
    contour approximates to four points. *)
Definition candidate_rect (approx : contour) : point * point * point * point :=
  _order_points (map (fun p => (inject_Z (fst p), inject_Z (snd p))) approx).

Definition too_small (cv : cv2_api) (rect : point * point * point * point) : Prop :=
  (dst_width cv rect < 100 \/ dst_height cv rect < 100)%Z.

(** A run of whitespace. *)
Definition all_space (w : pystr) : Prop := Forall (fun c => py_isspace c = true) w.

(** The strategies that follow the direct parse: the fenced block, then
    the first brace-delimited substring. *)
Definition later_strategies (cleaned : pystr) : option pydict :=
  match
    match Re.search Re.fence_at cleaned with
    | Some group1 => as_dict (Json.loads (strip group1))
    | None => None
    end
  with
  | Some result => Some result
  | None =>
      match Re.search Re.brace_at cleaned with
      | Some group0 => as_dict (Json.loads group0)
      | None => None
      end
  end.

(** The two texts of the reasoning-block examples. *)
Definition spec_example : pystr :=
  pyq "<think>The document shows {'wrong':'data'} but let me extract properly.</think>"
  ++ NL ++ pyq "{'first_name':'Anna'}".




(** The exceptions of gpu_client.py. *)
Definition is_gpu_exception (e : pyexn) : Prop :=
  match e with
  | GPUServiceUnavailable _ | GPUServiceError _ => True
  | OtherException _ => False
  end.

(** What every extraction field satisfies, for a document type and its
    set of expected keys: a value that is non-empty and trimmed, the
    document type as source, and the confidence its key calls for. *)
Definition well_formed_field (doc_type : pystr) (known : list pystr)
    (f : ExtractionField) : Prop :=
  value f <> [] /\
  strip (value f) = value f /\
  source f = doc_type /\
  confidence f = (if key_in (key f) known then BOOSTED_CONFIDENCE else BASE_CONFIDENCE).





(** The keys vision-brain asks for and vision-service does not. *)
Definition address_keys : list pystr :=
  map py ["birth_place"; "street"; "house_number"; "postal_code"; "city"]%string.

(** A field of vision-brain beside the field vision-service builds from
    the same entry: the same but for the confidence, which differs only
    on a key that vision-brain alone expects. *)
Definition field_agrees (fb fs : ExtractionField) : Prop :=
  key fb = key fs /\ value fb = value fs /\ source fb = source fs /\
  (confidence fb = confidence fs
   \/ (In (key fb) address_keys /\
       confidence fb = BOOSTED_CONFIDENCE /\ confidence fs = BASE_CONFIDENCE)).



(** What the crop stage needs of [np.linalg.norm]: the length of a
    vector that is parallel to an axis is the magnitude of its other
    coordinate. *)
Definition norm_on_axes (cv : cv2_api) : Prop :=
  forall v : point,
    (snd v == 0 -> np_linalg_norm cv v == Qabs_val (fst v))%Q /\
    (fst v == 0 -> np_linalg_norm cv v == Qabs_val (snd v))%Q.

(** What the fence strategy parses of the text between two fences: the
    text after an optional [json] tag, trimmed. *)
Definition fence_content (c : pystr) : pystr :=
  strip (match strip_prefix (py "json") c with Some r => r | None => c end).

(* ===================================================================== *)
(** * Properties *)
(* ===================================================================== *)

(** ** Python strings *)

Lemma pystr_eqb_spec (a b : pystr) : pystr_eqb a b = true <-> a = b.
Proof.
  revert b; induction a as [|x a IH]; intros [|y b]; simpl;
    try (split; [discriminate | congruence]); try tauto.
  rewrite andb_true_iff, N.eqb_eq, IH. split.
  - intros [-> ->]; reflexivity.
  - intros H; injection H; auto.
Qed.

Lemma strip_prefix_spec (p s r : pystr) :
  strip_prefix p s = Some r <-> s = p ++ r.
Proof.
  revert s; induction p as [|x p IH]; intros s; simpl.
  - split; congruence.
  - destruct s as [|y s]; [split; discriminate|].
    destruct (N.eqb_spec x y) as [->|Hne].
    + rewrite IH. split; congruence.
    + split; [discriminate | congruence].
Qed.

Lemma strip_prefix_app (p r : pystr) : strip_prefix p (p ++ r) = Some r.
Proof. apply strip_prefix_spec; reflexivity. Qed.

Lemma contains_spec (p s : pystr) : contains p s = true <-> occurs p s.
Proof.
  induction s as [|c s IH].
  - simpl. destruct (strip_prefix p []) as [r|] eqn:E.
    + apply strip_prefix_spec in E. split; [|reflexivity].
      intros _. exists [], r. exact E.
    + split; [discriminate|]. intros (pre & post & H).
      destruct pre; [|discriminate]. simpl in H.
      apply strip_prefix_spec in H. congruence.
  - simpl. destruct (strip_prefix p (c :: s)) as [r|] eqn:E.
    + apply strip_prefix_spec in E. split; [|reflexivity].
      intros _. exists [], r. exact E.
    + rewrite IH. split.
      * intros (pre & post & ->). exists (c :: pre), post. reflexivity.
      * intros (pre & post & H). destruct pre as [|c' pre].
        -- simpl in H. apply strip_prefix_spec in H. congruence.
        -- injection H as _ H. exists pre, post. exact H.
Qed.

(** ** The orchestrator *)

Section OrchestratorFacts.

Variable cv : cv2_api.
Variable monotonic : world -> Q.

(** C1.  Whatever response the orchestrator returns, its warnings are
    non-empty exactly when its fields are empty, which is exactly when
    one of the four failure conditions (unknown document type, backend
    unavailable, backend error, zero parseable fields) was detected; in
    that case there is one warning, and a response with a field has no
    warning. *)
Theorem extract_from_image_warnings
    (image_bytes : list byte) (doc_type : pystr) (gpu_client : GPUClient)
    (net : backend) (w w' : world) (r : ExtractionResponse) :
  extract_from_image cv monotonic image_bytes doc_type gpu_client net w = (Ret r, w') ->
  (warnings r <> [] <-> fields r = []) /\
  (fields r = [] <-> failure_detected cv image_bytes doc_type gpu_client net w) /\
  (fields r = [] -> List.length (warnings r) = 1) /\
  (fields r <> [] -> warnings r = []).
Proof.
  unfold extract_from_image, failure_detected.
  destruct (PROMPTS doc_type) as [prompt|] eqn:HP.
  - destruct (preprocess cv image_bytes) as [pre|e] eqn:Hpre; [|discriminate].
    destruct (infer gpu_client net pre prompt (tick_preprocess w)) as [res w2] eqn:Hinf.
    destruct res as [[raw_text ms]|e]; [|destruct e as [m|m|n]]; intros H; inversion H; subst; clear H; simpl.
    + destruct (parse_json_from_response raw_text doc_type) as [|f fs] eqn:Hparse; simpl.
      * repeat split; try congruence; try discriminate.
        intros _. right. exists prompt, pre. repeat split; auto.
        rewrite Hinf. simpl. right; right. exists raw_text, ms. auto.
      * repeat split; try congruence; try discriminate;
          try (intros Habs; exfalso; apply Habs; reflexivity).
        intros [Hn | (p' & pre' & Hp' & Hpre' & Hcase)]; [discriminate|].
        injection Hp' as <-. injection Hpre' as <-.
        rewrite Hinf in Hcase. simpl in Hcase.
        destruct Hcase as [[m Hm] | [[m Hm] | (t & ms' & Ht & Hz)]]; try discriminate.
        injection Ht as <- <-. congruence.
    + repeat split; try congruence; try discriminate.
      intros _. right. exists prompt, pre. repeat split; auto.
      rewrite Hinf. simpl. left. exists m. reflexivity.
    + repeat split; try congruence; try discriminate.
      intros _. right. exists prompt, pre. repeat split; auto.
      rewrite Hinf. simpl. right; left. exists m. reflexivity.
  - intros H; inversion H; subst; clear H; simpl.
    repeat split; try congruence; try discriminate. auto.
Qed.

(** C4.  A document type with no registered prompt gives a response with
    no fields, one warning that contains the type name and
    [processing_time_ms = 0]; the counters of the world are untouched:
    no preprocessing run, no request posted, no pause. *)
Theorem extract_from_image_unknown_type
    (image_bytes : list byte) (doc_type : pystr) (gpu_client : GPUClient)
    (net : backend) (w : world) :
  PROMPTS doc_type = None ->
  exists warning,
    extract_from_image cv monotonic image_bytes doc_type gpu_client net w
    = (Ret {| document_type := doc_type; fields := [];
              warnings := [warning]; processing_time_ms := 0 |}, w)
    /\ occurs doc_type warning.
Proof.
  intros HP. unfold extract_from_image. rewrite HP.
  eexists. split; [reflexivity|].
  exists (py "No prompt defined for document type: "), [].
  rewrite app_nil_r. reflexivity.
Qed.

End OrchestratorFacts.

(** C1 on a run of the simulation: the backend loads once, then answers
    with one field; the response has that field and no warning. *)
Lemma extract_from_image_warnings_witness :
  exists r w',
    extract_from_image Sim.cv2 Sim.clock (Sim.encode_shape 300 200)
      (py "reisepass") default_client
      (Sim.loading_once_then (pyq "{'first_name':'Anna'}")) Sim.w0 = (Ret r, w')
    /\ (warnings r <> [] <-> fields r = [])
    /\ (fields r = [] <->
        failure_detected Sim.cv2 (Sim.encode_shape 300 200) (py "reisepass")
          default_client (Sim.loading_once_then (pyq "{'first_name':'Anna'}")) Sim.w0)
    /\ (fields r = [] -> List.length (warnings r) = 1)
    /\ (fields r <> [] -> warnings r = [])
    /\ List.length (fields r) = 1 /\ posts w' = 2.
Proof.
  eexists. eexists.
  match goal with |- ?run = _ /\ _ =>
    assert (Hrun : run = (Ret
       {| document_type := py "reisepass";
          fields := parse_json_from_response (pyq "{'first_name':'Anna'}") (py "reisepass");
          warnings := [];
          processing_time_ms := 1020 |},
       {| posts := 2; sleeps := 1; preprocess_runs := 1 |}))
      by (vm_compute; reflexivity)
  end.
  split; [exact Hrun|].
  pose proof (extract_from_image_warnings Sim.cv2 Sim.clock _ _ _ _ _ _ _ Hrun)
    as (H1 & H2 & H3 & H4).
  repeat split; try (apply H1); try (apply H2); try exact H3; try exact H4.
Defined.

(** C4 on the type name of the test suite. *)
Lemma extract_from_image_unknown_type_witness :
  PROMPTS (py "unknown_type") = None /\
  exists warning,
    extract_from_image Sim.cv2 Sim.clock (Sim.encode_shape 300 200)
      (py "unknown_type") default_client Sim.always_unavailable Sim.w0
    = (Ret {| document_type := py "unknown_type"; fields := [];
              warnings := [warning]; processing_time_ms := 0 |}, Sim.w0)
    /\ occurs (py "unknown_type") warning.
Proof.
  split; [reflexivity|].
  apply (extract_from_image_unknown_type Sim.cv2 Sim.clock); reflexivity.
Defined.

(** ** The inference client *)

Lemma _send_infer_attempt (net : backend) (p : payload) (w : world) :
  _send_infer net p w = (attempt net p (posts w), tick_post w).
Proof.
  unfold attempt, _send_infer; simpl.
  destruct (net (posts w) p) as [e|e|e|e|st body]; try reflexivity.
  destruct (st =? 503)%Z; [reflexivity|].
  destruct (negb (st =? 200)%Z); [reflexivity|].
  destruct (text body); reflexivity.
Qed.

(** The retry loop, by the number of attempts it makes. *)
Lemma retry_call_spec (net : backend) (p : payload) (remaining : nat) (w : world) :
  exists calls,
    1 <= calls <= S remaining /\
    retry_call remaining (_send_infer net p) w
    = (attempt net p (posts w + calls - 1),
       {| posts := posts w + calls; sleeps := sleeps w + (calls - 1);
          preprocess_runs := preprocess_runs w |}) /\
    (forall i, i < calls - 1 -> is_unavailable (attempt net p (posts w + i))) /\
    (is_unavailable (attempt net p (posts w + calls - 1)) -> calls = S remaining).
Proof.
  revert w; induction remaining as [|k IH]; intros w.
  - exists 1. simpl. rewrite _send_infer_attempt.
    replace (posts w + 1 - 1) with (posts w) by lia.
    replace (posts w + 1) with (S (posts w)) by lia.
    replace (sleeps w + 0) with (sleeps w) by lia.
    repeat split; try lia.
    destruct (attempt net p (posts w)) as [a|[m|m|n]]; reflexivity.
  - simpl. rewrite _send_infer_attempt.
    destruct (attempt net p (posts w)) as [a|[m|m|n]] eqn:Hat.
    2:{ destruct (IH (tick_sleep (tick_post w))) as (calls & Hc & Hrun & Hpre & Hlast).
        simpl in Hrun, Hpre, Hlast.
        exists (S calls). split; [lia|].
        replace (posts w + S calls - 1) with (S (posts w) + calls - 1) by lia.
        replace (posts w + S calls) with (S (posts w) + calls) by lia.
        replace (sleeps w + (S calls - 1)) with (S (sleeps w) + (calls - 1)) by lia.
        split; [exact Hrun|]. split.
        - intros i Hi. destruct i as [|i].
          + replace (posts w + 0) with (posts w) by lia. exists m. exact Hat.
          + replace (posts w + S i) with (S (posts w) + i) by lia. apply Hpre. lia.
        - intros Hu. f_equal. apply Hlast. exact Hu. }
    all: exists 1;
      replace (posts w + 1 - 1) with (posts w) by lia;
      replace (posts w + 1) with (S (posts w)) by lia;
      replace (sleeps w + (1 - 1)) with (sleeps w) by lia;
      rewrite Hat; repeat split; try lia;
      intros [m' Hm']; discriminate.
Qed.

(** C2.  The retry policy of [infer], for a client configured with [n]
    attempts.  (a) It makes at least one and at most [max 1 n] requests,
    pauses once between two requests, and what it returns or raises is
    what its last request gave; every request before the last one ended
    in [GPUServiceUnavailable] (nothing else is retried), and when the
    last one did too the attempts are used up.  (b) With 3 attempts and a
    backend unavailable at every request, exactly 3 requests are made and
    the error raised is that of the third.  (c) A [GPUServiceError] at
    the first request is raised after exactly that one request. *)
Theorem infer_retry_policy (self : GPUClient) (net : backend)
    (image : list byte) (prompt : pystr) (w : world) :
  let p := {| image_b64 := image; prompt := prompt |} in
  let out := infer self net image prompt w in
  (exists calls,
      posts (snd out) = posts w + calls /\
      sleeps (snd out) = sleeps w + (calls - 1) /\
      1 <= calls /\ (Z.of_nat calls <= Z.max 1 (_retry_attempts self))%Z /\
      fst out = attempt net p (posts w + calls - 1) /\
      (forall i, i < calls - 1 -> is_unavailable (attempt net p (posts w + i))) /\
      (is_unavailable (fst out) -> Z.of_nat calls = Z.max 1 (_retry_attempts self)))
  /\ (_retry_attempts self = 3%Z ->
      (forall k, is_unavailable (attempt net p k)) ->
      posts (snd out) = posts w + 3 /\
      fst out = attempt net p (posts w + 2) /\ is_unavailable (fst out))
  /\ (forall m, attempt net p (posts w) = Raise (GPUServiceError m) ->
      posts (snd out) = posts w + 1 /\ fst out = Raise (GPUServiceError m)).
Proof.
  intros p out.
  destruct (retry_call_spec net p (Z.to_nat (_retry_attempts self - 1)) w)
    as (calls & Hc & Hrun & Hpre & Hlast).
  assert (Hout : out = (attempt net p (posts w + calls - 1),
       {| posts := posts w + calls; sleeps := sleeps w + (calls - 1);
          preprocess_runs := preprocess_runs w |})) by exact Hrun.
  split; [|split].
  - exists calls. rewrite Hout; simpl.
    repeat split; try lia; auto.
    intros Hu. apply Hlast in Hu. lia.
  - intros Hn Hall. rewrite Hout; simpl.
    assert (calls = 3).
    { rewrite Hn in Hlast. simpl in Hlast. apply Hlast. apply Hall. }
    subst calls. replace (posts w + 3 - 1) with (posts w + 2) by lia.
    repeat split. apply Hall.
  - intros m Hm. rewrite Hout; simpl.
    assert (calls = 1).
    { destruct calls as [|[|c]]; [lia|reflexivity|].
      destruct (Hpre 0 ltac:(lia)) as [m' Hm'].
      replace (posts w + 0) with (posts w) in Hm' by lia. congruence. }
    subst calls. replace (posts w + 1 - 1) with (posts w) by lia. auto.
Qed.

(** C2 on the two simulated backends: always loading, and failing for
    good. *)
Lemma infer_retry_policy_witness :
  let p := {| image_b64 := [x01]; prompt := py "prompt" |} in
  (_retry_attempts default_client = 3%Z /\
   (forall k, is_unavailable (attempt Sim.always_unavailable p k)) /\
   attempt Sim.internal_error p (posts Sim.w0)
   = Raise (GPUServiceError (py "Internal error")))
  /\ (posts (snd (infer default_client Sim.always_unavailable [x01] (py "prompt") Sim.w0)) = 3
      /\ is_unavailable (fst (infer default_client Sim.always_unavailable [x01] (py "prompt") Sim.w0)))
  /\ (posts (snd (infer default_client Sim.internal_error [x01] (py "prompt") Sim.w0)) = 1
      /\ fst (infer default_client Sim.internal_error [x01] (py "prompt") Sim.w0)
         = Raise (GPUServiceError (py "Internal error"))).
Proof.
  intros p.
  assert (Hall : forall k, is_unavailable (attempt Sim.always_unavailable p k))
    by (intros k; eexists; reflexivity).
  split; [split; [reflexivity | split; [exact Hall | reflexivity]] |].
  split.
  - destruct (infer_retry_policy default_client Sim.always_unavailable
                [x01] (py "prompt") Sim.w0) as (_ & H3 & _).
    destruct (H3 eq_refl Hall) as (Hp & _ & Hu). split; [exact Hp | exact Hu].
  - destruct (infer_retry_policy default_client Sim.internal_error
                [x01] (py "prompt") Sim.w0) as (_ & _ & H1).
    exact (H1 (py "Internal error") eq_refl).
Defined.

(** The cases of tests/test_gpu_client.py for the retry loop, run on the
    model: one loading answer and then success is two requests; refused
    connections twice and then success is three. *)
Lemma infer_tests :
  infer default_client (Sim.loading_once_then (py "ok")) [x01] (py "prompt") Sim.w0
  = (Ret (py "ok", 100%Z), {| posts := 2; sleeps := 1; preprocess_runs := 0 |})
  /\ infer default_client
       (fun n _ => if Nat.ltb n 2 then ConnectError (py "Connection refused")
                   else Response 200 (Sim.body_text (py "ok") 100))
       [x01] (py "prompt") Sim.w0
     = (Ret (py "ok", 100%Z), {| posts := 3; sleeps := 2; preprocess_runs := 0 |})
  /\ fst (infer default_client
            (fun _ _ => Response 400 (Sim.body_detail "Bad base64"))
            [x01] (py "prompt") Sim.w0)
     = Raise (GPUServiceError (py "Bad base64")).
Proof. repeat split; vm_compute; reflexivity. Qed.

(** ** The field builder *)

Lemma add_field_loop (doc_type : pystr) (parsed : pydict) (acc : list ExtractionField) :
  fold_left (add_field doc_type (EXPECTED_KEYS doc_type)) parsed acc
  = acc ++ buildFields_spec parsed doc_type.
Proof.
  revert acc; induction parsed as [|[k v] rest IH]; intros acc; simpl.
  - now rewrite app_nil_r.
  - rewrite IH. unfold field_of, kept_value; simpl.
    destruct v; try reflexivity.
    destruct (is_empty (strip s)); [reflexivity|].
    rewrite <- app_assoc. reflexivity.
Qed.

Lemma buildFields_spec_In (parsed : pydict) (doc_type : pystr) (f : ExtractionField) :
  In f (buildFields_spec parsed doc_type) <->
  exists item, In item parsed /\ field_of doc_type item = Some f.
Proof.
  induction parsed as [|item rest IH]; simpl.
  - split; [tauto | intros (i & [] & _)].
  - destruct (field_of doc_type item) as [g|] eqn:E; simpl; rewrite IH.
    + split.
      * intros [<- | (i & Hi & Hf)]; [exists item; auto | exists i; auto].
      * intros (i & [<- | Hi] & Hf); [left; congruence | right; exists i; auto].
    + split.
      * intros (i & Hi & Hf). exists i; auto.
      * intros (i & [<- | Hi] & Hf); [congruence | exists i; auto].
Qed.

Lemma buildFields_spec_keys (parsed : pydict) (doc_type : pystr) :
  map key (buildFields_spec parsed doc_type)
  = map fst (filter (fun item => keeps (snd item)) parsed).
Proof.
  induction parsed as [|[k v] rest IH]; simpl; [reflexivity|].
  unfold field_of, keeps; simpl.
  destruct (kept_value v); simpl; rewrite IH; reflexivity.
Qed.

(** C6.  On a parsed object, [parse_json_from_response] builds exactly
    the fields the design describes: a field is in the result exactly
    when it comes from a pair whose value is a string that is non-empty
    after trimming, and then it carries the trimmed value, confidence
    0.85 or 0.75 by membership of the key in the expected set, and the
    document type as source; the keys of the result are the keys of the
    kept pairs in the key order of the object, every other pair being
    dropped.  For the
    object with [first_name] Max, an empty [last_name] and the number 42
    under [count], and a type expecting [first_name], the result is the
    single field for [first_name]. *)
Theorem parse_json_from_response_fields (raw doc_type : pystr) (parsed : pydict) :
  try_parse_json raw = Some parsed ->
  parse_json_from_response raw doc_type = buildFields_spec parsed doc_type
  /\ (forall f, In f (parse_json_from_response raw doc_type) <->
        exists k v, In (k, v) parsed /\
          (exists s, v = JString s /\ strip s <> [] /\ value f = strip s) /\
          key f = k /\ source f = doc_type /\
          confidence f = (if key_in k (EXPECTED_KEYS doc_type)
                          then BOOSTED_CONFIDENCE else BASE_CONFIDENCE))
  /\ map key (parse_json_from_response raw doc_type)
     = map fst (filter (fun item => keeps (snd item)) parsed)
  /\ parse_json_from_response
       (pyq "{'first_name':'Max','last_name':'','count':42}") (py "personalausweis")
     = [ {| key := py "first_name"; value := py "Max";
            confidence := BOOSTED_CONFIDENCE; source := py "personalausweis" |} ].
Proof.
  intros Hparse.
  assert (Heq : parse_json_from_response raw doc_type = buildFields_spec parsed doc_type).
  { unfold parse_json_from_response. rewrite Hparse.
    rewrite add_field_loop. reflexivity. }
  split; [exact Heq|]. split; [|split].
  - intros f. rewrite Heq, buildFields_spec_In. split.
    + intros ([k v] & Hin & Hf). exists k, v. split; [exact Hin|].
      unfold field_of, kept_value in Hf; simpl in Hf.
      destruct v; try discriminate.
      destruct (strip s) as [|c t] eqn:Hs; simpl in Hf; [discriminate|].
      injection Hf as <-. simpl. repeat split; auto.
      exists s. rewrite Hs. repeat split; auto. discriminate.
    + intros (k & v & Hin & (s & -> & Hne & Hv) & Hk & Hsrc & Hc).
      exists (k, JString s). split; [exact Hin|].
      unfold field_of, kept_value; simpl.
      destruct (strip s) as [|c t] eqn:Hs; [congruence|]. simpl.
      destruct f as [fk fv fc fs]; simpl in *. subst. reflexivity.
  - rewrite Heq. apply buildFields_spec_keys.
  - vm_compute. reflexivity.
Qed.

(** C6 on the example object, for the driver's-license type. *)
Lemma parse_json_from_response_fields_witness :
  try_parse_json (pyq "{'first_name':'Max','last_name':'','count':42}")
  = Some [ (py "first_name", JString (py "Max"));
           (py "last_name", JString []);
           (py "count", JInt 42) ]
  /\ parse_json_from_response
       (pyq "{'first_name':'Max','last_name':'','count':42}") (py "fuehrerschein")
     = buildFields_spec
         [ (py "first_name", JString (py "Max"));
           (py "last_name", JString []);
           (py "count", JInt 42) ] (py "fuehrerschein").
Proof.
  assert (H : try_parse_json (pyq "{'first_name':'Max','last_name':'','count':42}")
              = Some [ (py "first_name", JString (py "Max"));
                       (py "last_name", JString []);
                       (py "count", JInt 42) ]) by (vm_compute; reflexivity).
  split; [exact H|].
  exact (proj1 (parse_json_from_response_fields _ (py "fuehrerschein") _ H)).
Defined.

(** ** The preprocessing pipeline *)

Lemma try_except_returns {A} (c : result A) (d : A) :
  exists a, try_except c (fun _ => Ret d) = Ret a.
Proof. destruct c as [a|e]; simpl; eauto. Qed.

Lemma within_tenth_1024 (x : Z) :
  within_tenth x 1024 = true <-> (Z.abs (x - 1024) <= 102)%Z.
Proof.
  unfold within_tenth, Qltb, Qle_bool, Qdiv, Qmult, Qinv, inject_Z; simpl.
  rewrite negb_true_iff, Z.leb_gt. lia.
Qed.

Lemma within_tenth_768 (x : Z) :
  within_tenth x 768 = true <-> (Z.abs (x - 768) <= 76)%Z.
Proof.
  unfold within_tenth, Qltb, Qle_bool, Qdiv, Qmult, Qinv, inject_Z; simpl.
  rewrite negb_true_iff, Z.leb_gt. lia.
Qed.

Lemma near_target_bounds (h w : Z) :
  near_target h w = true ->
  (0 < h /\ 0 < w /\ Z.max h w <= 1126)%Z.
Proof.
  unfold near_target, resize_target, TARGET_LANDSCAPE, TARGET_PORTRAIT.
  destruct (h <? w)%Z; simpl; rewrite andb_true_iff;
    rewrite within_tenth_1024, within_tenth_768; lia.
Qed.

Section PipelineFacts.

Variable cv : cv2_api.

Lemma _crop_document_returns (img : ndarray cv) :
  exists out, _crop_document cv img = Ret out.
Proof. apply try_except_returns. Qed.

Lemma _deskew_returns (img : ndarray cv) :
  exists out, _deskew cv img = Ret out.
Proof. apply try_except_returns. Qed.

Lemma _clahe_normalize_returns (img : ndarray cv) :
  exists out, _clahe_normalize cv img = Ret out.
Proof. apply try_except_returns. Qed.




(** The resize stage, by cases. *)
Lemma _resize_cases (img : ndarray cv) :
  let h := fst (cv2_shape cv img) in
  let w := snd (cv2_shape cv img) in
  (near_target h w = true -> _resize cv img = Ret img)
  /\ (near_target h w = false ->
      forall out, cv2_resize cv img (resize_target h w) = Ret out ->
      _resize cv img = Ret out)
  /\ (near_target h w = false ->
      forall e, cv2_resize cv img (resize_target h w) = Raise e ->
      _resize cv img = Ret img).
Proof.
  unfold _resize, near_target, resize_target, TARGET_LANDSCAPE, TARGET_PORTRAIT.
  destruct (cv2_shape cv img) as [h w]; simpl.
  destruct (h <? w)%Z; simpl;
    (destruct (within_tenth w _ && within_tenth h _);
     repeat split; try discriminate; try reflexivity;
     intros _ out Hout; rewrite Hout; reflexivity).
Qed.

Lemma _perspective_transform_cases (img : ndarray cv)
    (rect : point * point * point * point) :
  ((dst_width cv rect < 100 \/ dst_height cv rect < 100)%Z ->
   _perspective_transform cv img rect = Ret None)
  /\ (forall out, _perspective_transform cv img rect = Ret (Some out) ->
      (100 <= dst_width cv rect /\ 100 <= dst_height cv rect)%Z /\
      exists m, cv2_warpPerspective cv img m (dst_width cv rect, dst_height cv rect)
                = Ret out).
Proof.
  unfold _perspective_transform.
  destruct rect as [[[tl tr] br] bl].
  destruct ((dst_width cv (tl, tr, br, bl) <? 100)
            || (dst_height cv (tl, tr, br, bl) <? 100))%Z eqn:E.
  - split; [reflexivity | discriminate].
  - apply orb_false_iff in E. destruct E as [E1 E2].
    apply Z.ltb_ge in E1, E2. split; [lia|].
    intros out H. split; [lia|].
    destruct (cv2_getPerspectiveTransform cv _ _) as [m|e]; simpl in H; [|discriminate].
    destruct (cv2_warpPerspective cv img m _) as [o|e] eqn:Hw; simpl in H; [|discriminate].
    injection H as <-. exists m. exact Hw.
Qed.

Lemma crop_loop_size (img : ndarray cv) (contours : list contour) (out : ndarray cv) :
  cv2_sizes cv ->
  crop_loop cv img contours = Ret (Some out) ->
  (100 <= fst (cv2_shape cv out) /\ 100 <= snd (cv2_shape cv out))%Z.
Proof.
  intros Hcv. induction contours as [|c rest IH]; cbn [crop_loop]; [discriminate|].
  destruct (cv2_arcLength cv c) as [peri|e]; cbn [bind]; [|discriminate].
  destruct (cv2_approxPolyDP cv c _) as [approx|e]; cbn [bind]; [|discriminate].
  destruct (Nat.eqb (List.length approx) 4); [|exact IH].
  destruct (cv2_contourArea cv approx) as [area|e]; cbn [bind]; [|discriminate].
  destruct (cv2_shape cv img) as [h w].
  destruct (h * w =? 0)%Z; [discriminate|].
  destruct (Qltb _ _); [exact IH|].
  destruct (_perspective_transform cv img _) as [[d|]|e] eqn:Hp; cbn [bind];
    [|exact IH|discriminate].
  intros H; injection H as ->.
  apply _perspective_transform_cases in Hp.
  destruct Hp as [[Hw Hh] [m Hm]].
  rewrite (warp_size cv Hcv _ _ _ _ _ Hm). cbn [fst snd]. lia.
Qed.

Lemma crop_loop_all_too_small (img : ndarray cv) (contours : list contour) :
  (forall c peri approx,
      In c contours ->
      cv2_arcLength cv c = Ret peri ->
      cv2_approxPolyDP cv c (Qmult (2 # 100) peri) = Ret approx ->
      List.length approx = 4 ->
      too_small cv (candidate_rect approx)) ->
  forall out, crop_loop cv img contours <> Ret (Some out).
Proof.
  induction contours as [|c rest IH]; intros Hall out; cbn [crop_loop]; [discriminate|].
  assert (IH' : crop_loop cv img rest <> Ret (Some out)).
  { apply IH. intros c' peri approx Hin. apply Hall. right; exact Hin. }
  destruct (cv2_arcLength cv c) as [peri|e] eqn:Hperi; cbn [bind]; [|discriminate].
  destruct (cv2_approxPolyDP cv c _) as [approx|e] eqn:Happrox; cbn [bind]; [|discriminate].
  destruct (Nat.eqb (List.length approx) 4) eqn:Hlen; [|exact IH'].
  apply Nat.eqb_eq in Hlen.
  destruct (cv2_contourArea cv approx) as [area|e]; cbn [bind]; [|discriminate].
  destruct (cv2_shape cv img) as [h w].
  destruct (h * w =? 0)%Z; [discriminate|].
  destruct (Qltb _ _); [exact IH'|].
  pose proof (Hall c peri approx (or_introl eq_refl) Hperi Happrox Hlen) as Hsmall.
  apply (proj1 (_perspective_transform_cases img _)) in Hsmall.
  unfold candidate_rect in Hsmall. rewrite Hsmall. cbn [bind]. exact IH'.
Qed.

Lemma _crop_document_cases (img : ndarray cv) :
  _crop_document cv img = Ret img
  \/ exists contours out,
       crop_loop cv img contours = Ret (Some out) /\ _crop_document cv img = Ret out.
Proof.
  unfold _crop_document.
  destruct (cv2_cvtColor cv img _) as [gray|e]; cbn [bind try_except]; [|auto].
  destruct (cv2_GaussianBlur cv gray _ _) as [blurred|e]; cbn [bind try_except]; [|auto].
  destruct (cv2_Canny cv blurred _ _) as [edges|e]; cbn [bind try_except]; [|auto].
  destruct (cv2_getStructuringElement cv _) as [kernel|e]; cbn [bind try_except]; [|auto].
  destruct (cv2_dilate cv edges kernel _) as [edges'|e]; cbn [bind try_except]; [|auto].
  destruct (cv2_findContours cv edges') as [contours|e]; cbn [bind try_except]; [|auto].
  destruct contours as [|c cs]; cbn [bind try_except]; [auto|].
  destruct (map_result (cv2_contourArea cv) (c :: cs)) as [areas|e];
    cbn [bind try_except]; [|auto].
  match goal with |- context [crop_loop cv img ?l] =>
    destruct (crop_loop cv img l) as [[d|]|e] eqn:Hloop; cbn [bind try_except]; auto;
    right; exists l, d; auto
  end.
Qed.

End PipelineFacts.

(** The simulated library has the size properties. *)
Lemma count_ones_repeat (n : nat) (r : list byte) :
  Sim.count_ones (repeat x01 n ++ x00 :: r) = (n, x00 :: r).
Proof. induction n as [|n IH]; simpl; [reflexivity|]. rewrite IH. reflexivity. Qed.

Lemma count_ones_repeat_end (n : nat) :
  Sim.count_ones (repeat x01 n) = (n, []).
Proof. induction n as [|n IH]; simpl; [reflexivity|]. rewrite IH. reflexivity. Qed.

Lemma imdecode_encode_shape (h w : nat) :
  Sim.imdecode (Sim.encode_shape (S h) (S w))
  = Ret (Some {| Sim.rows := S h; Sim.cols := S w;
                 Sim.outlines := []; Sim.segments := [] |}).
Proof.
  unfold Sim.imdecode, Sim.encode_shape.
  change (repeat x01 (S h) ++ x00 :: repeat x01 (S w))
    with (x01 :: (repeat x01 h ++ x00 :: repeat x01 (S w))).
  cbv iota beta.
  change (x01 :: (repeat x01 h ++ x00 :: repeat x01 (S w)))
    with (repeat x01 (S h) ++ x00 :: repeat x01 (S w)).
  rewrite count_ones_repeat. rewrite count_ones_repeat_end. reflexivity.
Qed.

Lemma sim_sizes : cv2_sizes Sim.cv2.
Proof.
  constructor.
  - intros img tw th Htw Hth. simpl. unfold Sim.sized.
    apply Z.ltb_lt in Htw as Htw', Hth as Hth'. rewrite Htw', Hth'. simpl.
    eexists; split; [reflexivity|]. simpl.
    rewrite !Z2Nat.id by lia. reflexivity.
  - intros img m w h out. simpl. unfold Sim.sized.
    destruct (0 <? w)%Z eqn:Hw; [|discriminate].
    destruct (0 <? h)%Z eqn:Hh; [|discriminate]. simpl.
    intros H; injection H as <-. simpl.
    apply Z.ltb_lt in Hw, Hh. rewrite !Z2Nat.id by lia. reflexivity.
  - intros [r c o s]; simpl. intros Hr Hc.
    destruct r as [|r]; [simpl in Hr; lia|].
    destruct c as [|c]; [simpl in Hc; lia|].
    unfold Sim.imencode_jpg; simpl Sim.rows; simpl Sim.cols. cbv iota beta.
    eexists; eexists. split; [reflexivity|].
    split; [apply imdecode_encode_shape | reflexivity].
Qed.



(** C8, as the code has it.  The resize stage leaves an image as it is
    when both dimensions are within 10% of the preset of its
    orientation, and otherwise resizes it to that preset: 1024 x 768 for
    a landscape image, 768 x 1024 for any other.  So, for a vision
    library with the size properties, the bytes [preprocess] returns for
    a decodable input decode to an image that has a preset size or is
    within 10% of one; its larger dimension is at most 1126, and at most
    1024 unless the resize was skipped. *)
Theorem preprocess_output_size (cv : cv2_api) :
  cv2_sizes cv ->
  (forall h w, resize_target h w
               = if (h <? w)%Z then (1024, 768)%Z else (768, 1024)%Z)
  /\ (forall img : ndarray cv,
        let h := fst (cv2_shape cv img) in
        let w := snd (cv2_shape cv img) in
        (near_target h w = true -> _resize cv img = Ret img) /\
        (near_target h w = false ->
         exists out, _resize cv img = Ret out /\
           cv2_shape cv out = (snd (resize_target h w), fst (resize_target h w))))
  /\ (forall image_bytes img,
        _decode cv image_bytes = Ret (Some img) ->
        exists out img',
          preprocess cv image_bytes = Ret out /\
          _decode cv out = Ret (Some img') /\
          let h := fst (cv2_shape cv img') in
          let w := snd (cv2_shape cv img') in
          ((h, w) = (768, 1024)%Z \/ (h, w) = (1024, 768)%Z \/ near_target h w = true)
          /\ (Z.max h w <= 1126)%Z
          /\ (near_target h w = false -> Z.max h w <= 1024)%Z).
Proof.
  intros Hcv.
  assert (Hstage : forall img : ndarray cv,
        let h := fst (cv2_shape cv img) in
        let w := snd (cv2_shape cv img) in
        (near_target h w = true -> _resize cv img = Ret img) /\
        (near_target h w = false ->
         exists out, _resize cv img = Ret out /\
           cv2_shape cv out = (snd (resize_target h w), fst (resize_target h w)))).
  { intros img h w. destruct (_resize_cases cv img) as (Hskip & Hdo & _).
    split; [exact Hskip|]. intros Hfar.
    assert (Hpos : (0 < fst (resize_target h w) /\ 0 < snd (resize_target h w))%Z).
    { unfold resize_target. destruct (h <? w)%Z; simpl; lia. }
    destruct (resize_size cv Hcv img (fst (resize_target h w)) (snd (resize_target h w)))
      as (out & Hout & Hshape); try tauto.
    exists out. split; [|exact Hshape].
    apply Hdo; [exact Hfar|]. rewrite <- surjective_pairing in Hout. exact Hout. }
  split; [reflexivity|]. split; [exact Hstage|].
  intros image_bytes img Hdec.
  unfold preprocess. rewrite Hdec. cbn [bind].
  destruct (_crop_document_returns cv img) as [i1 ->]. cbn [bind].
  destruct (_deskew_returns cv i1) as [i2 ->]. cbn [bind].
  destruct (_clahe_normalize_returns cv i2) as [i3 ->]. cbn [bind].
  assert (Hres : exists i4, _resize cv i3 = Ret i4 /\
            let h := fst (cv2_shape cv i4) in
            let w := snd (cv2_shape cv i4) in
            (h, w) = (768, 1024)%Z \/ (h, w) = (1024, 768)%Z \/ near_target h w = true).
  { destruct (Hstage i3) as [Hskip Hdo].
    destruct (near_target (fst (cv2_shape cv i3)) (snd (cv2_shape cv i3))) eqn:Hn.
    - exists i3. split; [apply Hskip; reflexivity|]. cbv zeta. auto.
    - destruct (Hdo eq_refl) as (i4 & Hi4 & Hshape).
      exists i4. split; [exact Hi4|]. cbv zeta. rewrite Hshape. cbn [fst snd].
      unfold resize_target.
      destruct (fst (cv2_shape cv i3) <? snd (cv2_shape cv i3))%Z; simpl; auto. }
  destruct Hres as (i4 & -> & Hshape). cbn [bind]. cbv zeta in Hshape.
  assert (Hdims : (0 < fst (cv2_shape cv i4) /\ 0 < snd (cv2_shape cv i4)
                   /\ Z.max (fst (cv2_shape cv i4)) (snd (cv2_shape cv i4)) <= 1126
                   /\ (near_target (fst (cv2_shape cv i4)) (snd (cv2_shape cv i4)) = false ->
                       Z.max (fst (cv2_shape cv i4)) (snd (cv2_shape cv i4)) <= 1024))%Z).
  { destruct Hshape as [H | [H | H]].
    - injection H as -> ->. repeat split; lia.
    - injection H as -> ->. repeat split; lia.
    - pose proof (near_target_bounds _ _ H). repeat split; try lia. congruence. }
  destruct (codec_shape cv Hcv i4) as (buf & img' & Henc & Hdec' & Hsame); try tauto.
  exists buf, img'. unfold _encode. rewrite Henc. cbn [bind try_except].
  split; [reflexivity|]. split; [exact Hdec'|].
  cbv zeta. rewrite Hsame. tauto.
Qed.

(** C8, as claimed, fails for an image within the skip tolerance: a
    picture 1100 wide and 800 high passes the pipeline at its size, and
    1100 exceeds 1024. *)
Lemma preprocess_skip_exceeds_1024 :
  exists out,
    preprocess Sim.cv2 (Sim.encode_shape 800 1100) = Ret out /\
    _decode Sim.cv2 out = Ret (Some (Sim.blank 800 1100)) /\
    cv2_shape Sim.cv2 (Sim.blank 800 1100) = (800, 1100)%Z /\
    ~ (Z.max 800 1100 <= 1024)%Z.
Proof.
  exists (Sim.encode_shape 800 1100).
  split; [vm_compute; reflexivity|].
  split; [vm_compute; reflexivity|].
  split; [reflexivity | lia].
Qed.

(** C8 on a small picture, which the pipeline resizes to a preset. *)
Lemma preprocess_output_size_witness :
  cv2_sizes Sim.cv2 /\
  _decode Sim.cv2 (Sim.encode_shape 20 30) = Ret (Some (Sim.blank 20 30)) /\
  exists out img',
    preprocess Sim.cv2 (Sim.encode_shape 20 30) = Ret out /\
    _decode Sim.cv2 out = Ret (Some img') /\
    (Z.max (fst (cv2_shape Sim.cv2 img')) (snd (cv2_shape Sim.cv2 img')) <= 1126)%Z.
Proof.
  split; [exact sim_sizes|].
  assert (Hd : _decode Sim.cv2 (Sim.encode_shape 20 30) = Ret (Some (Sim.blank 20 30)))
    by (vm_compute; reflexivity).
  split; [exact Hd|].
  destruct (preprocess_output_size Sim.cv2 sim_sizes) as (_ & _ & Hall).
  destruct (Hall _ _ Hd) as (out & img' & Hout & Himg & _ & Hmax & _).
  exists out, img'. auto.
Defined.

(** C9, as the code has it.  A crop is never smaller than 100 x 100: a
    candidate quadrilateral whose destination rectangle has a dimension
    below 100 is rejected, and a crop that is made has both dimensions
    at least 100 (for a library whose warp gives the size asked for).
    The stage returns either its input unchanged or such a crop; it
    returns the input unchanged when every candidate among the contours
    it inspects is rejected for size. *)
Theorem crop_stage_size (cv : cv2_api) (img : ndarray cv) :
  cv2_sizes cv ->
  (forall rect, too_small cv rect -> _perspective_transform cv img rect = Ret None)
  /\ (forall rect out,
        _perspective_transform cv img rect = Ret (Some out) ->
        (100 <= fst (cv2_shape cv out) /\ 100 <= snd (cv2_shape cv out))%Z)
  /\ (exists out,
        _crop_document cv img = Ret out /\
        (out = img \/
         (100 <= fst (cv2_shape cv out) /\ 100 <= snd (cv2_shape cv out))%Z))
  /\ (forall contours,
        (forall c peri approx,
            In c contours ->
            cv2_arcLength cv c = Ret peri ->
            cv2_approxPolyDP cv c (Qmult (2 # 100) peri) = Ret approx ->
            List.length approx = 4 ->
            too_small cv (candidate_rect approx)) ->
        forall out, crop_loop cv img contours <> Ret (Some out)).
Proof.
  intros Hcv. split; [|split; [|split]].
  - intros rect. apply _perspective_transform_cases.
  - intros rect out H.
    destruct (proj2 (_perspective_transform_cases cv img rect) out H) as [[Hw Hh] [m Hm]].
    rewrite (warp_size cv Hcv _ _ _ _ _ Hm). cbn [fst snd]. lia.
  - destruct (_crop_document_cases cv img) as [H | (contours & out & Hloop & H)].
    + exists img. auto.
    + exists out. split; [exact H|]. right. exact (crop_loop_size cv img contours out Hcv Hloop).
  - intros contours. apply crop_loop_all_too_small.
Qed.

(** C9, as claimed, fails when a second candidate follows a rejected
    one: of the two rectangles the picture shows, the larger is
    inspected first and rejected for its height of 90, and the stage
    then crops to the other instead of passing the picture on
    unchanged. *)
Lemma crop_continues_after_rejection :
  cv2_findContours Sim.cv2 Sim.two_rectangles
    = Ret [Sim.rectangle 0 200 300 110; Sim.rectangle 0 0 390 90]
  /\ map fst (sort_desc (combine
       [Sim.rectangle 0 200 300 110; Sim.rectangle 0 0 390 90]
       [Qmake 33000 1; Qmake 35100 1]))
     = [Sim.rectangle 0 0 390 90; Sim.rectangle 0 200 300 110]
  /\ dst_width Sim.cv2 (candidate_rect (Sim.rectangle 0 0 390 90)) = 390%Z
  /\ dst_height Sim.cv2 (candidate_rect (Sim.rectangle 0 0 390 90)) = 90%Z
  /\ _perspective_transform Sim.cv2 Sim.two_rectangles
       (candidate_rect (Sim.rectangle 0 0 390 90)) = Ret None
  /\ _crop_document Sim.cv2 Sim.two_rectangles = Ret (Sim.blank 110 300)
  /\ Sim.blank 110 300 <> Sim.two_rectangles.
Proof.
  repeat split; try (vm_compute; reflexivity). discriminate.
Qed.

(** C9 on a picture with one flat rectangle, which is passed on
    unchanged, and on a picture of a card, which is cropped. *)
Lemma crop_stage_size_witness :
  cv2_sizes Sim.cv2 /\
  too_small Sim.cv2 (candidate_rect (Sim.rectangle 0 0 390 90)) /\
  _perspective_transform Sim.cv2 Sim.flat_rectangle
    (candidate_rect (Sim.rectangle 0 0 390 90)) = Ret None /\
  _crop_document Sim.cv2 Sim.flat_rectangle = Ret Sim.flat_rectangle /\
  exists out,
    _crop_document Sim.cv2 Sim.card_on_table = Ret out /\
    (out = Sim.card_on_table \/
     (100 <= fst (cv2_shape Sim.cv2 out) /\ 100 <= snd (cv2_shape Sim.cv2 out))%Z).
Proof.
  assert (Hsmall : too_small Sim.cv2 (candidate_rect (Sim.rectangle 0 0 390 90))).
  { right. vm_compute. reflexivity. }
  split; [exact sim_sizes|]. split; [exact Hsmall|].
  split; [exact (proj1 (crop_stage_size Sim.cv2 Sim.flat_rectangle sim_sizes) _ Hsmall)|].
  split; [vm_compute; reflexivity|].
  exact (proj1 (proj2 (proj2 (crop_stage_size Sim.cv2 Sim.card_on_table sim_sizes)))).
Defined.

(** ** Whitespace and the searches of the parser *)

Lemma lstrip_decomp (s : pystr) :
  exists w, s = w ++ lstrip s /\ all_space w.
Proof.
  induction s as [|c s (w & Hw & Hsp)]; simpl.
  - exists []. split; [reflexivity | constructor].
  - destruct (py_isspace c) eqn:Hc.
    + exists (c :: w). split; [simpl; congruence | constructor; assumption].
    + exists []. split; [reflexivity | constructor].
Qed.

Lemma all_space_rev (w : pystr) : all_space w -> all_space (rev w).
Proof. unfold all_space. intros H. apply Forall_rev. exact H. Qed.

Lemma strip_decomp (s : pystr) :
  exists w1 w2, s = w1 ++ strip s ++ w2 /\ all_space w1 /\ all_space w2.
Proof.
  destruct (lstrip_decomp s) as (w1 & H1 & Hs1).
  destruct (lstrip_decomp (rev (lstrip s))) as (w2 & H2 & Hs2).
  exists w1, (rev w2). unfold strip, rstrip.
  split; [|split; [exact Hs1 | apply all_space_rev; exact Hs2]].
  rewrite <- rev_app_distr, <- H2, rev_involutive. exact H1.
Qed.

(** A pattern whose first character is no whitespace does not match at
    a whitespace character. *)
Lemma strip_prefix_space_head (x c : pychar) (p t : pystr) :
  py_isspace x = false -> py_isspace c = true ->
  strip_prefix (x :: p) (c :: t) = None.
Proof.
  intros Hx Hc. simpl. destruct (N.eqb_spec x c) as [->|]; [congruence | reflexivity].
Qed.

(** A pattern without whitespace neither gains nor loses a match when
    whitespace is added after the text. *)
Lemma strip_prefix_app_space (p s w : pystr) :
  Forall (fun c => py_isspace c = false) p -> all_space w ->
  strip_prefix p (s ++ w) = option_map (fun r => r ++ w) (strip_prefix p s).
Proof.
  intros Hp Hw. revert s. induction Hp as [|x p Hx Hp IH]; intros s; simpl.
  - reflexivity.
  - destruct s as [|y s]; simpl.
    + destruct Hw as [|c w Hc Hw]; [reflexivity|].
      destruct (N.eqb_spec x c) as [->|]; [congruence | reflexivity].
    + destruct (N.eqb x y); [apply IH | reflexivity].
Qed.

Lemma search_skip {A} (match_at : pystr -> option A) (w s : pystr) :
  (forall c t, In c w -> match_at (c :: t) = None) ->
  Re.search match_at (w ++ s) = Re.search match_at s.
Proof.
  induction w as [|c w IH]; intros H; simpl; [reflexivity|].
  rewrite (H c (w ++ s)) by (left; reflexivity).
  apply IH. intros c' t Hin. apply H. right; exact Hin.
Qed.

Lemma search_app {A} (match_at : pystr -> option A) (s w : pystr) :
  (forall t, match_at (t ++ w) = match_at t) ->
  Re.search match_at w = None ->
  Re.search match_at (s ++ w) = Re.search match_at s.
Proof.
  intros Happ Hw. induction s as [|c s IH].
  - simpl app. rewrite Hw. simpl. rewrite <- (Happ []). simpl app.
    destruct w; simpl in Hw |- *; destruct (match_at _); congruence.
  - change ((c :: s) ++ w) with (c :: (s ++ w)).
    simpl. change (c :: (s ++ w)) with ((c :: s) ++ w).
    rewrite Happ. rewrite IH. reflexivity.
Qed.

Lemma search_space_none {A} (match_at : pystr -> option A) (w : pystr) :
  match_at [] = None ->
  (forall c t, In c w -> match_at (c :: t) = None) ->
  Re.search match_at w = None.
Proof.
  intros Hnil. induction w as [|c w IH]; intros H; simpl.
  - rewrite Hnil. reflexivity.
  - rewrite (H c w) by (left; reflexivity).
    apply IH. intros c' t Hin. apply H. right; exact Hin.
Qed.

Lemma FENCE_no_space : Forall (fun c => py_isspace c = false) Re.FENCE.
Proof. repeat constructor. Qed.

Lemma fence_at_space (c : pychar) (t : pystr) :
  py_isspace c = true -> Re.fence_at (c :: t) = None.
Proof.
  intros Hc. unfold Re.fence_at.
  change Re.FENCE with (96%N :: py "``").
  rewrite strip_prefix_space_head by (auto; reflexivity). reflexivity.
Qed.

Lemma lazy_until_fence_space (w : pystr) :
  all_space w -> Re.lazy_until_fence w = None.
Proof.
  induction 1 as [|c w Hc Hw IH]; [reflexivity|].
  cbn [Re.lazy_until_fence].
  assert (H1 : strip_prefix (NL ++ Re.FENCE) (c :: w) = None).
  { change (NL ++ Re.FENCE) with (10%N :: Re.FENCE). cbn [strip_prefix].
    destruct (10 =? c)%N; [|reflexivity].
    destruct Hw as [|c' w' Hc' Hw']; [reflexivity|].
    change Re.FENCE with (96%N :: py "``").
    apply strip_prefix_space_head; [reflexivity | exact Hc']. }
  assert (H2 : strip_prefix Re.FENCE (c :: w) = None).
  { change Re.FENCE with (96%N :: py "``").
    apply strip_prefix_space_head; [reflexivity | exact Hc]. }
  rewrite H1, H2, IH. reflexivity.
Qed.

Lemma lazy_until_fence_app_space (t w : pystr) :
  all_space w -> Re.lazy_until_fence (t ++ w) = Re.lazy_until_fence t.
Proof.
  intros Hw. induction t as [|c t IH].
  - simpl app. rewrite lazy_until_fence_space by exact Hw. reflexivity.
  - change ((c :: t) ++ w) with (c :: (t ++ w)).
    cbn [Re.lazy_until_fence].
    assert (H1 : strip_prefix (NL ++ Re.FENCE) (c :: (t ++ w))
                 = option_map (fun r => r ++ w) (strip_prefix (NL ++ Re.FENCE) (c :: t))).
    { change (NL ++ Re.FENCE) with (10%N :: Re.FENCE). cbn [strip_prefix].
      destruct (10 =? c)%N; [|reflexivity].
      apply strip_prefix_app_space; [exact FENCE_no_space | exact Hw]. }
    assert (H2 : strip_prefix Re.FENCE (c :: (t ++ w))
                 = option_map (fun r => r ++ w) (strip_prefix Re.FENCE (c :: t))).
    { change (c :: (t ++ w)) with ((c :: t) ++ w).
      apply strip_prefix_app_space; [exact FENCE_no_space | exact Hw]. }
    rewrite H1, H2, IH.
    destruct (strip_prefix (NL ++ Re.FENCE) (c :: t)); [reflexivity|].
    destruct (strip_prefix Re.FENCE (c :: t)); reflexivity.
Qed.

Lemma lstrip_space (w : pystr) : all_space w -> lstrip w = [].
Proof. induction 1 as [|c w Hc Hw IH]; simpl; [reflexivity|]. rewrite Hc. exact IH. Qed.

Lemma lstrip_app_space (s w : pystr) :
  all_space w ->
  lstrip (s ++ w) = lstrip s ++ w \/ (lstrip (s ++ w) = [] /\ lstrip s = []).
Proof.
  intros Hw. induction s as [|c s IH]; simpl.
  - right. split; [apply lstrip_space; exact Hw | reflexivity].
  - destruct (py_isspace c); [exact IH | left; reflexivity].
Qed.

Lemma fence_at_app_space (t w : pystr) :
  all_space w -> Re.fence_at (t ++ w) = Re.fence_at t.
Proof.
  intros Hw. unfold Re.fence_at.
  rewrite (strip_prefix_app_space Re.FENCE t w FENCE_no_space Hw).
  destruct (strip_prefix Re.FENCE t) as [s1|]; [|reflexivity].
  cbn [option_map].
  rewrite (strip_prefix_app_space (py "json") s1 w) by (auto; repeat constructor).
  assert (Hl : forall s2, Re.lazy_until_fence (lstrip (s2 ++ w))
                          = Re.lazy_until_fence (lstrip s2)).
  { intros s2. destruct (lstrip_app_space s2 w Hw) as [-> | [-> ->]];
      [apply lazy_until_fence_app_space; exact Hw | reflexivity]. }
  destruct (strip_prefix (py "json") s1) as [r|]; cbn [option_map]; apply Hl.
Qed.

Lemma brace_at_space (c : pychar) (t : pystr) :
  py_isspace c = true -> Re.brace_at (c :: t) = None.
Proof.
  intros Hc. unfold Re.brace_at.
  destruct (N.eqb_spec c 123) as [->|]; [discriminate | reflexivity].
Qed.

Lemma brace_body_space (w : pystr) : all_space w -> Re.brace_body w = None.
Proof.
  induction 1 as [|c w Hc Hw IH]; simpl; [reflexivity|].
  destruct (N.eqb_spec c 125) as [->|]; [discriminate|].
  destruct (N.eqb_spec c 123) as [->|]; [discriminate|].
  rewrite IH. reflexivity.
Qed.

Lemma brace_body_app_space (t w : pystr) :
  all_space w -> Re.brace_body (t ++ w) = Re.brace_body t.
Proof.
  intros Hw. induction t as [|c t IH]; simpl.
  - apply brace_body_space. exact Hw.
  - destruct (c =? 125)%N; [reflexivity|].
    destruct (c =? 123)%N; [reflexivity|]. rewrite IH. reflexivity.
Qed.

Lemma brace_at_app_space (t w : pystr) :
  all_space w -> Re.brace_at (t ++ w) = Re.brace_at t.
Proof.
  intros Hw. destruct t as [|c t]; simpl.
  - destruct Hw as [|c w Hc Hw]; [reflexivity|]. apply brace_at_space. exact Hc.
  - destruct (c =? 123)%N; [|reflexivity].
    rewrite brace_body_app_space by exact Hw. reflexivity.
Qed.

(** Searching the trimmed text finds what searching the text finds. *)
Lemma search_fence_strip (s : pystr) :
  Re.search Re.fence_at (strip s) = Re.search Re.fence_at s.
Proof.
  destruct (strip_decomp s) as (w1 & w2 & Hs & H1 & H2).
  rewrite Hs at 2.
  rewrite search_skip.
  - rewrite search_app; [reflexivity | | ].
    + intros t. apply fence_at_app_space. exact H2.
    + apply search_space_none; [reflexivity|].
      intros c t Hin. apply fence_at_space.
      unfold all_space in H2. rewrite Forall_forall in H2. apply H2. exact Hin.
  - intros c t Hin. apply fence_at_space.
    unfold all_space in H1. rewrite Forall_forall in H1. apply H1. exact Hin.
Qed.

Lemma search_brace_strip (s : pystr) :
  Re.search Re.brace_at (strip s) = Re.search Re.brace_at s.
Proof.
  destruct (strip_decomp s) as (w1 & w2 & Hs & H1 & H2).
  rewrite Hs at 2.
  rewrite search_skip.
  - rewrite search_app; [reflexivity | | ].
    + intros t. apply brace_at_app_space. exact H2.
    + apply search_space_none; [reflexivity|].
      intros c t Hin. apply brace_at_space.
      unfold all_space in H2. rewrite Forall_forall in H2. apply H2. exact Hin.
  - intros c t Hin. apply brace_at_space.
    unfold all_space in H1. rewrite Forall_forall in H1. apply H1. exact Hin.
Qed.

(** Without an opening marker the substitution changes nothing. *)
Lemma contains_false_tail (p : pystr) (c : pychar) (s : pystr) :
  contains p (c :: s) = false ->
  strip_prefix p (c :: s) = None /\ contains p s = false.
Proof.
  simpl. destruct (strip_prefix p (c :: s)); [discriminate | auto].
Qed.

Lemma sub_think_no_marker (raw : pystr) :
  contains Re.THINK_OPEN raw = false -> Re.sub_think raw = raw.
Proof.
  unfold Re.sub_think. induction raw as [|c s IH]; intros H; [reflexivity|].
  apply contains_false_tail in H. destruct H as [Hp Hs].
  cbn [Re.sub_go]. unfold Re.match_think. rewrite Hp. rewrite IH by exact Hs.
  reflexivity.
Qed.

(** C10.  On every input that holds no [<think>] marker the parser of
    vision-brain and the parser of vision-service return the same
    result. *)
Theorem try_parse_json_agree (raw : pystr) :
  contains Re.THINK_OPEN raw = false ->
  try_parse_json raw = VisionService.try_parse_json raw.
Proof.
  intros H. unfold try_parse_json, VisionService.try_parse_json.
  destruct raw as [|c raw]; [reflexivity|].
  cbn [is_empty]. rewrite (sub_think_no_marker _ H).
  rewrite search_fence_strip, search_brace_strip. reflexivity.
Qed.

(** C10 on a fenced answer with text before it and blanks around. *)
Lemma try_parse_json_agree_witness :
  contains Re.THINK_OPEN
    (py "  Here you go: ```json" ++ NL ++ pyq "{'first_name': 'Max'}" ++ NL ++ py "```  ")
  = false
  /\ try_parse_json
       (py "  Here you go: ```json" ++ NL ++ pyq "{'first_name': 'Max'}" ++ NL ++ py "```  ")
     = VisionService.try_parse_json
       (py "  Here you go: ```json" ++ NL ++ pyq "{'first_name': 'Max'}" ++ NL ++ py "```  ")
  /\ VisionService.try_parse_json
       (py "  Here you go: ```json" ++ NL ++ pyq "{'first_name': 'Max'}" ++ NL ++ py "```  ")
     = Some [ (py "first_name", JString (py "Max")) ].
Proof.
  split; [vm_compute; reflexivity|].
  split; [apply try_parse_json_agree; vm_compute; reflexivity | vm_compute; reflexivity].
Defined.

(** ** [json.loads] *)

Lemma skip_ws_length (s : pystr) : List.length (skip_ws s) <= List.length s.
Proof.
  induction s as [|c s IH]; simpl; [lia|].
  destruct (is_json_ws c); simpl; lia.
Qed.


Lemma strip_prefix_length (p s r : pystr) :
  strip_prefix p s = Some r -> List.length s = List.length p + List.length r.
Proof. intros H. apply strip_prefix_spec in H. subst. apply length_app. Qed.

Lemma scanstring_length (s acc str r : pystr) :
  scanstring s acc = Some (str, r) -> List.length r < List.length s.
Proof.
  remember (List.length s) as n eqn:Hn.
  revert s acc Hn. induction n as [n IH] using lt_wf_ind. intros s acc Hn.
  destruct s as [|c tl]; [discriminate|]. cbn [scanstring].
  destruct (c =? 34)%N.
  { intros H; injection H as _ <-. subst n. simpl. lia. }
  destruct (c =? 92)%N.
  2:{ destruct (c <? 32)%N; [discriminate|]. intros H.
      apply (IH (List.length tl)) in H; subst; simpl; auto; lia. }
  destruct tl as [|e tl2]; [discriminate|].
  destruct (e =? 117)%N.
  2:{ destruct (backslash_escape e); [|discriminate]. intros H.
      apply (IH (List.length tl2)) in H; subst; simpl; auto; lia. }
  destruct tl2 as [|h1 [|h2 [|h3 [|h4 tl3]]]]; try discriminate.
  destruct (hex4 h1 h2 h3 h4) as [uni|]; [|discriminate].
  assert (Hplain : forall a, scanstring tl3 a = Some (str, r) ->
                             List.length r < n).
  { intros a H. apply (IH (List.length tl3)) in H; subst; simpl; auto; lia. }
  destruct (is_high_surrogate uni); [|apply Hplain].
  destruct tl3 as [|b [|u [|g1 [|g2 [|g3 [|g4 tl4]]]]]]; try apply Hplain.
  destruct ((b =? 92) && (u =? 117))%N; [|apply Hplain].
  destruct (hex4 g1 g2 g3 g4) as [uni2|]; [|discriminate].
  destruct (is_low_surrogate uni2); [|apply Hplain].
  intros H. apply (IH (List.length tl4)) in H; subst; simpl in *; auto; lia.
Qed.

Lemma span_digits_length (s d r : pystr) :
  span_digits s = (d, r) -> List.length s = List.length d + List.length r.
Proof.
  revert d r; induction s as [|c s IH]; intros d r; simpl.
  - intros H; injection H as <- <-. reflexivity.
  - destruct (is_digit c).
    + destruct (span_digits s) as [d' r'] eqn:E. intros H; injection H as <- <-.
      simpl. rewrite (IH d' r' eq_refl). reflexivity.
    + intros H; injection H as <- <-. reflexivity.
Qed.

Lemma match_integer_length (s d r : pystr) :
  match_integer s = Some (d, r) -> List.length r < List.length s.
Proof.
  destruct s as [|c tl]; [discriminate|]. simpl.
  destruct (c =? 48)%N.
  - intros H; injection H as _ <-. lia.
  - destruct (is_digit c); [|discriminate].
    destruct (span_digits tl) as [d' r'] eqn:E.
    intros H; injection H as _ <-.
    apply span_digits_length in E. lia.
Qed.

Lemma match_frac_length (s d r : pystr) :
  match_frac s = Some (d, r) -> List.length r <= List.length s.
Proof.
  destruct s as [|c tl]; [discriminate|]. simpl.
  destruct (c =? 46)%N; [|discriminate].
  destruct (span_digits tl) as [[|x d'] r'] eqn:E; [discriminate|].
  intros H; injection H as _ <-. apply span_digits_length in E. lia.
Qed.

Lemma match_exp_length (s d r : pystr) :
  match_exp s = Some (d, r) -> List.length r <= List.length s.
Proof.
  destruct s as [|c tl]; [discriminate|]. simpl.
  destruct ((c =? 101) || (c =? 69))%N; [|discriminate].
  destruct tl as [|sg tl2]; [discriminate|].
  destruct ((sg =? 43) || (sg =? 45))%N.
  - destruct (span_digits tl2) as [[|x d'] r'] eqn:E; [discriminate|].
    intros H; injection H as _ <-. apply span_digits_length in E. simpl. lia.
  - destruct (span_digits (sg :: tl2)) as [[|x d'] r'] eqn:E; [discriminate|].
    intros H; injection H as _ <-. apply span_digits_length in E. simpl in *. lia.
Qed.

Lemma match_number_cases (s : pystr) (v : json) (r : pystr) :
  match_number s = POk v r ->
  List.length r < List.length s /\
  ((exists z, v = JInt z) \/ (exists l, v = JFloat l)).
Proof.
  unfold match_number.
  set (sgn := match s with
              | [] => (false, s)
              | c :: tl => if (c =? 45)%N then (true, tl) else (false, s)
              end).
  assert (Hs1 : List.length (snd sgn) <= List.length s).
  { subst sgn. destruct s as [|c tl]; simpl; [lia|].
    destruct (c =? 45)%N; simpl; lia. }
  destruct sgn as [neg s1]. simpl in Hs1.
  destruct (match_integer s1) as [[ip r1]|] eqn:Hi; [|discriminate].
  apply match_integer_length in Hi.
  set (fr := match match_frac r1 with Some (f, r0) => (f, r0) | None => ([], r1) end).
  assert (Hr2 : List.length (snd fr) <= List.length r1).
  { subst fr. destruct (match_frac r1) as [[f r0]|] eqn:Hf; simpl; [|lia].
    apply match_frac_length in Hf. exact Hf. }
  destruct fr as [fp r2]. simpl in Hr2.
  set (ex := match match_exp r2 with Some (e, r0) => (e, r0) | None => ([], r2) end).
  assert (Hr3 : List.length (snd ex) <= List.length r2).
  { subst ex. destruct (match_exp r2) as [[e r0]|] eqn:He; simpl; [|lia].
    apply match_exp_length in He. exact He. }
  destruct ex as [ep r3]. simpl in Hr3.
  destruct fp; destruct ep; intros H; injection H as <- <-;
    (split; [lia | eauto]).
Qed.

Lemma parse_array_is_array (fuel : nat) :
  forall s acc v r, parse_array fuel s acc = POk v r -> exists l, v = JArray l.
Proof.
  induction fuel as [|f IH]; intros s acc v r; [discriminate|].
  cbn [parse_array].
  destruct (scan_once f s) as [v1 r1| |]; try discriminate.
  destruct (skip_ws r1) as [|d r2]; [discriminate|].
  destruct (d =? 93)%N; [intros H; injection H as <- _; eauto|].
  destruct (d =? 44)%N; [apply IH | discriminate].
Qed.



(** The scanners consume: what is left after a term is shorter than what
    they were given. *)
Lemma scanners_consume (fuel : nat) :
  (forall s v r, scan_once fuel s = POk v r -> List.length r < List.length s)
  /\ (forall s acc v r, parse_object fuel s acc = POk v r ->
        List.length r < List.length s)
  /\ (forall s acc v r, parse_array fuel s acc = POk v r ->
        List.length r < List.length s).
Proof.
  induction fuel as [|f (IHs & IHo & IHa)].
  { repeat split; intros; discriminate. }
  split; [|split].
  - intros s v r. cbn [scan_once].
    destruct s as [|c tl]; [discriminate|].
    destruct (c =? 34)%N.
    { destruct (scanstring tl []) as [[str r0]|] eqn:E; [|discriminate].
      intros H; injection H as _ <-. apply scanstring_length in E. simpl; lia. }
    destruct (c =? 123)%N.
    { pose proof (skip_ws_length tl) as Hl.
      destruct (skip_ws tl) as [|c1 r1]; [discriminate|].
      destruct (c1 =? 125)%N.
      - intros H; injection H as _ <-. simpl in *; lia.
      - intros H. apply IHo in H. simpl in *; lia. }
    destruct (c =? 91)%N.
    { pose proof (skip_ws_length tl) as Hl.
      destruct (skip_ws tl) as [|c1 r1]; [discriminate|].
      destruct (c1 =? 93)%N.
      - intros H; injection H as _ <-. simpl in *; lia.
      - intros H. apply IHa in H. simpl in *; lia. }
    repeat match goal with
           | |- context [strip_prefix ?p ?t] =>
               let E := fresh "E" in
               destruct (strip_prefix p t) eqn:E;
               [intros H; injection H as _ <-;
                apply strip_prefix_length in E; simpl in E; simpl; lia|]
           end.
    intros H. apply match_number_cases in H. tauto.
  - intros s acc v r. cbn [parse_object].
    destruct s as [|q tl]; [discriminate|].
    destruct (q =? 34)%N; [|discriminate].
    destruct (scanstring tl []) as [[k r1]|] eqn:Ek; [|discriminate].
    apply scanstring_length in Ek.
    pose proof (skip_ws_length r1) as H1.
    destruct (skip_ws r1) as [|colon r2]; [discriminate|].
    destruct (colon =? 58)%N; [|discriminate].
    pose proof (skip_ws_length r2) as H2.
    destruct (scan_once f (skip_ws r2)) as [v1 r3| |] eqn:Ev; try discriminate.
    apply IHs in Ev.
    pose proof (skip_ws_length r3) as H3.
    destruct (skip_ws r3) as [|d r4]; [discriminate|].
    destruct (d =? 125)%N.
    + intros H; injection H as _ <-. simpl in *; lia.
    + destruct (d =? 44)%N; [|discriminate].
      pose proof (skip_ws_length r4) as H4.
      intros H. apply IHo in H. simpl in *; lia.
  - intros s acc v r. cbn [parse_array].
    destruct (scan_once f s) as [v1 r1| |] eqn:Ev; try discriminate.
    apply IHs in Ev.
    pose proof (skip_ws_length r1) as H1.
    destruct (skip_ws r1) as [|d r2]; [discriminate|].
    destruct (d =? 93)%N.
    + intros H; injection H as _ <-. simpl in *; lia.
    + destruct (d =? 44)%N; [|discriminate].
      pose proof (skip_ws_length r2) as H2.
      intros H. apply IHa in H. simpl in *; lia.
Qed.

(** The depth budget is never the reason for an answer. *)
Lemma scanners_fuel (fuel : nat) :
  (forall s, 2 * List.length s < fuel -> scan_once fuel s <> PFuel)
  /\ (forall s acc, 2 * List.length s < fuel -> parse_object fuel s acc <> PFuel)
  /\ (forall s acc, 2 * List.length s + 1 < fuel -> parse_array fuel s acc <> PFuel).
Proof.
  induction fuel as [|f (IHs & IHo & IHa)].
  { repeat split; intros; lia. }
  split; [|split].
  - intros s Hf. cbn [scan_once].
    destruct s as [|c tl]; [discriminate|].
    destruct (c =? 34)%N.
    { destruct (scanstring tl []) as [[str r0]|]; discriminate. }
    destruct (c =? 123)%N.
    { pose proof (skip_ws_length tl) as Hl.
      destruct (skip_ws tl) as [|c1 r1]; [discriminate|].
      destruct (c1 =? 125)%N; [discriminate|].
      apply IHo. simpl in *; lia. }
    destruct (c =? 91)%N.
    { pose proof (skip_ws_length tl) as Hl.
      destruct (skip_ws tl) as [|c1 r1]; [discriminate|].
      destruct (c1 =? 93)%N; [discriminate|].
      apply IHa. simpl in *; lia. }
    repeat match goal with
           | |- context [strip_prefix ?p ?t] =>
               destruct (strip_prefix p t); [discriminate|]
           end.
    unfold match_number.
    repeat match goal with
           | |- context [match ?x with _ => _ end] => destruct x
           end; discriminate.
  - intros s acc Hf. cbn [parse_object].
    destruct s as [|q tl]; [discriminate|].
    destruct (q =? 34)%N; [|discriminate].
    destruct (scanstring tl []) as [[k r1]|] eqn:Ek; [|discriminate].
    apply scanstring_length in Ek.
    pose proof (skip_ws_length r1) as H1.
    destruct (skip_ws r1) as [|colon r2]; [discriminate|].
    destruct (colon =? 58)%N; [|discriminate].
    pose proof (skip_ws_length r2) as H2.
    destruct (scan_once f (skip_ws r2)) as [v1 r3| |] eqn:Ev; try discriminate.
    + apply (proj1 (scanners_consume f)) in Ev.
      pose proof (skip_ws_length r3) as H3.
      destruct (skip_ws r3) as [|d r4]; [discriminate|].
      destruct (d =? 125)%N; [discriminate|].
      destruct (d =? 44)%N; [|discriminate].
      pose proof (skip_ws_length r4) as H4.
      apply IHo. simpl in *; lia.
    + exfalso. revert Ev. apply IHs. simpl in *; lia.
  - intros s acc Hf. cbn [parse_array].
    destruct (scan_once f s) as [v1 r1| |] eqn:Ev; try discriminate.
    + apply (proj1 (scanners_consume f)) in Ev.
      pose proof (skip_ws_length r1) as H1.
      destruct (skip_ws r1) as [|d r2]; [discriminate|].
      destruct (d =? 93)%N; [discriminate|].
      destruct (d =? 44)%N; [|discriminate].
      pose proof (skip_ws_length r2) as H2.
      apply IHa. simpl in *; lia.
    + exfalso. revert Ev. apply IHs. lia.
Qed.

(** [json.loads] on any text is an answer of the decoder: a value or a
    decode error. *)
Theorem decode_total (s : pystr) : Json.decode s <> PFuel.
Proof.
  unfold Json.decode.
  destruct (scan_once (fuel_for s) (skip_ws s)) as [v r| |] eqn:E.
  - destruct (skip_ws r); discriminate.
  - discriminate.
  - exfalso. revert E. apply (proj1 (scanners_fuel (fuel_for s))).
    unfold fuel_for. pose proof (skip_ws_length s). lia.
Qed.

(** ** The response parser *)

Lemma try_parse_json_unfold (raw : pystr) :
  try_parse_json raw =
  if is_empty raw then None
  else match as_dict (Json.loads (strip (Re.sub_think raw))) with
       | Some result => Some result
       | None => later_strategies (strip (Re.sub_think raw))
       end.
Proof. reflexivity. Qed.


Lemma lstrip_incl (s : pystr) (c : pychar) : In c (lstrip s) -> In c s.
Proof.
  induction s as [|x s IH]; simpl; [tauto|].
  destruct (py_isspace x); simpl; tauto.
Qed.


Lemma strip_prefix_incl (p s r : pystr) (c : pychar) :
  strip_prefix p s = Some r -> In c r -> In c s.
Proof.
  intros H Hin. apply strip_prefix_spec in H. subst.
  apply in_or_app. right; exact Hin.
Qed.



Lemma search_incl {A} (match_at : pystr -> option A) (P : A -> pystr -> Prop) :
  (forall t m, match_at t = Some m -> P m t) ->
  (forall m x t, P m t -> P m (x :: t)) ->
  forall s m, Re.search match_at s = Some m -> P m s.
Proof.
  intros Hat Hcons. induction s as [|x s IH]; intros m; simpl.
  - destruct (match_at []) eqn:E; [|discriminate].
    intros H; injection H as <-. apply Hat. exact E.
  - destruct (match_at (x :: s)) eqn:E.
    + intros H; injection H as <-. apply Hat. exact E.
    + intros H. apply Hcons. apply IH. exact H.
Qed.





Lemma match_think_not_open (x : pychar) (s : pystr) :
  x <> 60%N -> Re.match_think (x :: s) = None.
Proof.
  intros Hx. unfold Re.match_think.
  change Re.THINK_OPEN with (60%N :: py "think>"). cbn [strip_prefix].
  destruct (N.eqb_spec 60 x) as [E|]; [congruence | reflexivity].
Qed.

Lemma sub_go_pre (pre s : pystr) :
  ~ In 60%N pre -> Re.sub_go 0 (pre ++ s) = pre ++ Re.sub_go 0 s.
Proof.
  induction pre as [|x pre IH]; intros Hno; [reflexivity|].
  change ((x :: pre) ++ s) with (x :: (pre ++ s)). cbn [Re.sub_go].
  rewrite match_think_not_open by (intros ->; apply Hno; left; reflexivity).
  rewrite IH by (intros H; apply Hno; right; exact H). reflexivity.
Qed.




(** The cases of tests/test_extraction.py for the parser, run on the
    model. *)
Lemma try_parse_json_tests :
  try_parse_json (pyq "{'first_name': 'Max', 'last_name': 'Mustermann'}")
  = Some [ (py "first_name", JString (py "Max"));
           (py "last_name", JString (py "Mustermann")) ]
  /\ try_parse_json
       (py "```json" ++ NL
        ++ pyq "{'first_name': 'Max', 'last_name': 'Mustermann', 'document_type': 'personalausweis'}"
        ++ NL ++ py "```")
     = Some [ (py "first_name", JString (py "Max"));
              (py "last_name", JString (py "Mustermann"));
              (py "document_type", JString (py "personalausweis")) ]
  /\ try_parse_json
       (py "Here is the extracted data:" ++ NL ++ NL
        ++ pyq "{'first_name': 'Max', 'last_name': 'Mustermann'}")
     = Some [ (py "first_name", JString (py "Max"));
              (py "last_name", JString (py "Mustermann")) ]
  /\ try_parse_json (py "  " ++ NL ++ pyq "  {'key': 'value'}  " ++ NL ++ py "  ")
     = Some [ (py "key", JString (py "value")) ]
  /\ try_parse_json (py "This is just plain text with no JSON at all.") = None
  /\ try_parse_json [] = None
  /\ try_parse_json
       (py "<think>" ++ NL ++ py "Let me analyze this document..." ++ NL
        ++ py "I can see the name field." ++ NL ++ py "</think>" ++ NL
        ++ pyq "{'first_name': 'Max', 'last_name': 'Mustermann'}")
     = Some [ (py "first_name", JString (py "Max"));
              (py "last_name", JString (py "Mustermann")) ]
  /\ try_parse_json
       (py "<think>" ++ NL
        ++ pyq "The document shows {'wrong': 'data'} but let me extract properly."
        ++ NL ++ py "</think>" ++ NL ++ pyq "{'first_name': 'Anna'}")
     = Some [ (py "first_name", JString (py "Anna")) ]
  /\ VisionService.try_parse_json spec_example
     = Some [ (py "wrong", JString (py "data")) ].
Proof. repeat split; vm_compute; reflexivity. Qed.




(** ** More on the inference client and the orchestrator *)

(** The loop stops at the first attempt that is not unavailable. *)
Lemma retry_call_first_other (net : backend) (p : payload) (remaining k : nat) (w : world) :
  k <= remaining ->
  (forall i, i < k -> is_unavailable (attempt net p (posts w + i))) ->
  ~ is_unavailable (attempt net p (posts w + k)) ->
  retry_call remaining (_send_infer net p) w
  = (attempt net p (posts w + k),
     {| posts := posts w + k + 1; sleeps := sleeps w + k;
        preprocess_runs := preprocess_runs w |}).
Proof.
  intros Hk Hpre Hlast.
  destruct (retry_call_spec net p remaining w) as (calls & Hc & Hrun & Hbefore & Hused).
  assert (calls = k + 1).
  { destruct (Nat.lt_trichotomy (calls - 1) k) as [Hlt | [Heq | Hgt]].
    - assert (Hu : is_unavailable (attempt net p (posts w + calls - 1))).
      { replace (posts w + calls - 1) with (posts w + (calls - 1)) by lia.
        apply Hpre. exact Hlt. }
      apply Hused in Hu. lia.
    - lia.
    - exfalso. apply Hlast. apply Hbefore. exact Hgt. }
  subst calls. rewrite Hrun.
  replace (posts w + (k + 1) - 1) with (posts w + k) by lia.
  replace (posts w + (k + 1)) with (posts w + k + 1) by lia.
  replace (k + 1 - 1) with k by lia. reflexivity.
Qed.


(** X1.  When the first [k] requests end in [GPUServiceUnavailable],
    [k] is below the number of attempts, and the next request is
    answered, [infer] returns that answer after exactly [k + 1] requests
    and [k] pauses. *)
Theorem infer_succeeds_after_transients (self : GPUClient) (net : backend)
    (image : list byte) (prompt : pystr) (w : world) (k : nat) (t : pystr) (ms : Z) :
  let p := {| image_b64 := image; prompt := prompt |} in
  (Z.of_nat k < Z.max 1 (_retry_attempts self))%Z ->
  (forall i, i < k -> is_unavailable (attempt net p (posts w + i))) ->
  attempt net p (posts w + k) = Ret (t, ms) ->
  infer self net image prompt w
  = (Ret (t, ms),
     {| posts := posts w + k + 1; sleeps := sleeps w + k;
        preprocess_runs := preprocess_runs w |}).
Proof.
  intros p Hk Hpre Hok. unfold infer, _infer_with_retry.
  rewrite (retry_call_first_other net p _ k w); try assumption.
  - fold p in Hok. rewrite Hok. reflexivity.
  - lia.
  - intros [m Hm]. congruence.
Qed.

(** X1 on the backend that loads once and then answers. *)
Lemma infer_succeeds_after_transients_witness :
  infer default_client (Sim.loading_once_then (py "ok")) [x01] (py "prompt") Sim.w0
  = (Ret (py "ok", 100%Z), {| posts := 2; sleeps := 1; preprocess_runs := 0 |}).
Proof.
  apply (infer_succeeds_after_transients default_client
           (Sim.loading_once_then (py "ok")) [x01] (py "prompt") Sim.w0 1).
  - reflexivity.
  - intros i Hi. assert (i = 0) by lia. subst i. eexists. reflexivity.
  - reflexivity.
Defined.





(** X3.  A 200 answer without the [text] field makes the request raise
    [KeyError]; it is not retried, whatever the number of attempts, and
    it leaves [infer] after that one request and [extract_from_image]
    after it, as an exception and not as a response. *)
Theorem missing_text_escapes (cv : cv2_api) (monotonic : world -> Q)
    (self : GPUClient) (net : backend) (image_bytes preprocessed : list byte)
    (doc_type prompt : pystr) (w : world) (body : response_body) :
  PROMPTS doc_type = Some prompt ->
  preprocess cv image_bytes = Ret preprocessed ->
  net (posts w) {| image_b64 := preprocessed; prompt := prompt |} = Response 200 body ->
  text body = None ->
  infer self net preprocessed prompt (tick_preprocess w)
  = (Raise (OtherException "KeyError"), tick_post (tick_preprocess w))
  /\ extract_from_image cv monotonic image_bytes doc_type self net w
     = (Raise (OtherException "KeyError"), tick_post (tick_preprocess w)).
Proof.
  intros HP Hpre Hnet Htext.
  assert (Hinf : infer self net preprocessed prompt (tick_preprocess w)
                 = (Raise (OtherException "KeyError"), tick_post (tick_preprocess w))).
  { unfold infer, _infer_with_retry.
    set (p := {| image_b64 := preprocessed; prompt := prompt |}) in *.
    assert (Hat : attempt net p (posts (tick_preprocess w)) = Raise (OtherException "KeyError")).
    { unfold attempt, _send_infer. simpl. rewrite Hnet. simpl. rewrite Htext. reflexivity. }
    rewrite (retry_call_first_other net p _ 0 (tick_preprocess w)).
    - replace (posts (tick_preprocess w) + 0) with (posts (tick_preprocess w)) by lia.
      rewrite Hat. unfold tick_post; simpl. repeat f_equal; lia.
    - lia.
    - intros i Hi; lia.
    - replace (posts (tick_preprocess w) + 0) with (posts (tick_preprocess w)) by lia.
      rewrite Hat. intros [m Hm]; discriminate. }
  split; [exact Hinf|].
  unfold extract_from_image. rewrite HP, Hpre, Hinf. reflexivity.
Qed.

(** X3 on the simulation: a backend that answers 200 with an empty
    body. *)
Lemma missing_text_escapes_witness :
  extract_from_image Sim.cv2 Sim.clock [x41; x42] (py "reisepass") default_client
    (fun _ _ => Response 200 {| detail := None; text := None; inference_time_ms := None |})
    Sim.w0
  = (Raise (OtherException "KeyError"), tick_post (tick_preprocess Sim.w0)).
Proof.
  exact (proj2 (missing_text_escapes Sim.cv2 Sim.clock default_client
           (fun _ _ => Response 200 {| detail := None; text := None; inference_time_ms := None |})
           [x41; x42] [x41; x42] (py "reisepass") _ Sim.w0 _
           eq_refl eq_refl eq_refl eq_refl)).
Defined.

Lemma infer_effects (self : GPUClient) (net : backend) (image : list byte)
    (prompt : pystr) (w : world) :
  let out := infer self net image prompt w in
  preprocess_runs (snd out) = preprocess_runs w /\
  posts w < posts (snd out) /\
  (Z.of_nat (posts (snd out)) <= Z.of_nat (posts w) + Z.max 1 (_retry_attempts self))%Z /\
  sleeps (snd out) + 1 = sleeps w + (posts (snd out) - posts w).
Proof.
  unfold infer, _infer_with_retry.
  set (p := {| image_b64 := image; prompt := prompt |}).
  destruct (retry_call_spec net p (Z.to_nat (_retry_attempts self - 1)) w)
    as (calls & Hc & Hrun & _ & _).
  cbv zeta. rewrite Hrun. simpl. repeat split; lia.
Qed.

(** X4.  What one call of the orchestrator does for a registered
    document type whose image passes preprocessing: it runs the
    preprocessing once, posts at least one and at most [max 1 n]
    requests with one pause between two of them; it never lets
    [GPUServiceUnavailable] or [GPUServiceError] out; and a response it
    returns carries the document type it was asked for. *)
Theorem extract_from_image_effects (cv : cv2_api) (monotonic : world -> Q)
    (image_bytes preprocessed : list byte) (doc_type prompt : pystr)
    (gpu_client : GPUClient) (net : backend) (w : world) :
  PROMPTS doc_type = Some prompt ->
  preprocess cv image_bytes = Ret preprocessed ->
  let out := extract_from_image cv monotonic image_bytes doc_type gpu_client net w in
  preprocess_runs (snd out) = preprocess_runs w + 1 /\
  posts w < posts (snd out) /\
  (Z.of_nat (posts (snd out)) <= Z.of_nat (posts w) + Z.max 1 (_retry_attempts gpu_client))%Z /\
  sleeps (snd out) + 1 = sleeps w + (posts (snd out) - posts w) /\
  (forall e, fst out = Raise e -> ~ is_gpu_exception e) /\
  (forall r, fst out = Ret r -> document_type r = doc_type).
Proof.
  intros HP Hpre out. subst out. unfold extract_from_image. rewrite HP, Hpre.
  pose proof (infer_effects gpu_client net preprocessed prompt (tick_preprocess w)) as He.
  cbv zeta in He.
  destruct (infer gpu_client net preprocessed prompt (tick_preprocess w)) as [res w2].
  simpl in He. destruct He as (H1 & H2 & H3 & H4).
  destruct res as [[raw_text ms]|e]; [|destruct e as [m|m|n]]; simpl;
    (split; [lia|]); (split; [lia|]); (split; [lia|]); (split; [lia|]);
    split; intros x Hx; inversion Hx; subst; simpl; auto.
Qed.

(** X4 on a run of the simulation. *)
Lemma extract_from_image_effects_witness :
  PROMPTS (py "reisepass") = Some (py "You are analyzing a German passport") /\
  preprocess Sim.cv2 [x41; x42] = Ret [x41; x42] /\
  let out := extract_from_image Sim.cv2 Sim.clock [x41; x42] (py "reisepass")
               default_client Sim.always_unavailable Sim.w0 in
  preprocess_runs (snd out) = 1 /\ posts (snd out) = 3 /\ sleeps (snd out) = 2 /\
  (forall r, fst out = Ret r -> document_type r = py "reisepass").
Proof.
  split; [reflexivity|]. split; [reflexivity|].
  pose proof (extract_from_image_effects Sim.cv2 Sim.clock [x41; x42] [x41; x42]
                (py "reisepass") _ default_client Sim.always_unavailable Sim.w0
                eq_refl eq_refl) as H.
  cbv zeta in H |- *. destruct H as (_ & _ & _ & _ & _ & Hdoc).
  split; [reflexivity|]. split; [reflexivity|]. split; [reflexivity|]. exact Hdoc.
Defined.





(** ** The endpoints *)




(** ** Invariants of the extraction fields *)

Lemma lstrip_head (s : pystr) (c : pychar) (t : pystr) :
  lstrip s = c :: t -> py_isspace c = false.
Proof.
  induction s as [|x s IH]; simpl; [discriminate|].
  destruct (py_isspace x) eqn:Hx; [exact IH|].
  intros H; injection H as <- _. exact Hx.
Qed.

Lemma lstrip_fixed (s : pystr) :
  (forall c t, s = c :: t -> py_isspace c = false) -> lstrip s = s.
Proof.
  destruct s as [|c t]; intros H; simpl; [reflexivity|].
  rewrite (H c t eq_refl). reflexivity.
Qed.

Lemma lstrip_idempotent (s : pystr) : lstrip (lstrip s) = lstrip s.
Proof. apply lstrip_fixed. intros c t H. exact (lstrip_head _ _ _ H). Qed.

Lemma strip_idempotent (s : pystr) : strip (strip s) = strip s.
Proof.
  unfold strip, rstrip.
  set (x := lstrip s).
  assert (Hx : forall c t, x = c :: t -> py_isspace c = false)
    by (intros c t H; exact (lstrip_head _ _ _ H)).
  set (y := rev (lstrip (rev x))).
  assert (Hy : lstrip y = y).
  { apply lstrip_fixed. intros c t Hc.
    destruct (lstrip_decomp (rev x)) as (w & Hw & _).
    assert (Hxy : x = y ++ rev w).
    { subst y. rewrite <- rev_app_distr, <- Hw, rev_involutive. reflexivity. }
    rewrite Hc in Hxy. simpl in Hxy. exact (Hx _ _ Hxy). }
  rewrite Hy. subst y. rewrite rev_involutive, lstrip_idempotent. reflexivity.
Qed.

Lemma add_field_fold_well_formed (doc_type : pystr) (known : list pystr)
    (parsed : pydict) (acc : list ExtractionField) :
  Forall (well_formed_field doc_type known) acc ->
  Forall (well_formed_field doc_type known)
         (fold_left (add_field doc_type known) parsed acc).
Proof.
  revert acc; induction parsed as [|[k v] rest IH]; intros acc Hacc; simpl; [exact Hacc|].
  apply IH. destruct v; try exact Hacc.
  destruct (strip s) as [|c t] eqn:Hs; simpl; [exact Hacc|].
  apply Forall_app. split; [exact Hacc|]. constructor; [|constructor].
  unfold well_formed_field; simpl. repeat split.
  - discriminate.
  - rewrite <- Hs. apply strip_idempotent.
Qed.

(** X7.  Every field that [parse_json_from_response] builds, in
    vision-brain and in vision-service, has a value that is non-empty
    and carries no whitespace at either end, the document type as
    source, and confidence 0.85 when its key is expected for the type
    and 0.75 otherwise; this holds for every model output and every
    document type, registered or not. *)
Theorem fields_well_formed (raw doc_type : pystr) :
  Forall (well_formed_field doc_type (EXPECTED_KEYS doc_type))
         (parse_json_from_response raw doc_type)
  /\ Forall (well_formed_field doc_type (VisionServiceApp.expected_keys doc_type))
            (VisionServiceApp.parse_json_from_response raw doc_type).
Proof.
  unfold parse_json_from_response, VisionServiceApp.parse_json_from_response. split.
  - destruct (try_parse_json raw); [|constructor].
    apply add_field_fold_well_formed. constructor.
  - destruct (VisionService.try_parse_json raw); [|constructor].
    apply add_field_fold_well_formed. constructor.
Qed.

Lemma dict_set_keys (k : pystr) (v : json) (d : pydict) :
  map fst (dict_set k v d) = map fst d /\ In k (map fst d)
  \/ map fst (dict_set k v d) = map fst d ++ [k] /\ ~ In k (map fst d).
Proof.
  induction d as [|[k' v'] tl IH]; simpl.
  - right. split; [reflexivity | tauto].
  - destruct (pystr_eqb k k') eqn:E.
    + apply pystr_eqb_spec in E. subst k'. left. simpl. auto.
    + assert (Hne : k' <> k).
      { intros ->. rewrite (proj2 (pystr_eqb_spec k k) eq_refl) in E. discriminate. }
      destruct IH as [[Hm Hin] | [Hm Hnin]]; simpl; rewrite Hm.
      * left. auto.
      * right. split; [reflexivity|]. intros [H | H]; [exact (Hne H) | exact (Hnin H)].
Qed.

Lemma dict_set_nodup (k : pystr) (v : json) (d : pydict) :
  NoDup (map fst d) -> NoDup (map fst (dict_set k v d)).
Proof.
  intros Hd. destruct (dict_set_keys k v d) as [[-> _] | [-> Hnin]]; [exact Hd|].
  apply NoDup_app; [exact Hd | repeat constructor; simpl; tauto |].
  intros x Hx [<- | []]. exact (Hnin Hx).
Qed.

Lemma parse_object_nodup (fuel : nat) :
  forall s acc v r,
    NoDup (map fst acc) ->
    parse_object fuel s acc = POk v r ->
    exists d, v = JObject d /\ NoDup (map fst d).
Proof.
  induction fuel as [|f IH]; intros s acc v r Hacc; [discriminate|].
  cbn [parse_object].
  destruct s as [|q tl]; [discriminate|].
  destruct (q =? 34)%N; [|discriminate].
  destruct (scanstring tl []) as [[k r1]|]; [|discriminate].
  destruct (skip_ws r1) as [|colon r2]; [discriminate|].
  destruct (colon =? 58)%N; [|discriminate].
  destruct (scan_once f (skip_ws r2)) as [v1 r3| |]; try discriminate.
  destruct (skip_ws r3) as [|d r4]; [discriminate|].
  destruct (d =? 125)%N.
  - intros H; injection H as <- _. eexists. split; [reflexivity|].
    apply dict_set_nodup. exact Hacc.
  - destruct (d =? 44)%N; [|discriminate].
    apply IH. apply dict_set_nodup. exact Hacc.
Qed.

Lemma scan_once_object_nodup (fuel : nat) (s : pystr) (d : pydict) (r : pystr) :
  scan_once fuel s = POk (JObject d) r -> NoDup (map fst d).
Proof.
  destruct fuel as [|f]; [discriminate|]. cbn [scan_once].
  destruct s as [|c tl]; [discriminate|].
  destruct (c =? 34)%N.
  { destruct (scanstring tl []) as [[str r0]|]; discriminate. }
  destruct (c =? 123)%N.
  { destruct (skip_ws tl) as [|c1 r1]; [discriminate|].
    destruct (c1 =? 125)%N.
    - intros H; injection H as <- _. constructor.
    - intros H. apply parse_object_nodup in H; [|constructor].
      destruct H as (d' & Hd & Hn). injection Hd as ->. exact Hn. }
  destruct (c =? 91)%N.
  { destruct (skip_ws tl) as [|c1 r1]; [discriminate|].
    destruct (c1 =? 93)%N; [discriminate|].
    intros H. apply parse_array_is_array in H. destruct H as [l H]; discriminate. }
  repeat match goal with
         | |- context [strip_prefix ?p ?t] =>
             destruct (strip_prefix p t); [discriminate|]
         end.
  intros H. apply match_number_cases in H.
  destruct H as [_ [[z H] | [l H]]]; discriminate.
Qed.

Lemma as_dict_loads_nodup (s : pystr) (d : pydict) :
  as_dict (Json.loads s) = Some d -> NoDup (map fst d).
Proof.
  unfold as_dict, Json.loads, Json.decode.
  destruct (scan_once (fuel_for s) (skip_ws s)) as [v r| |] eqn:E; try discriminate.
  destruct (skip_ws r); [|discriminate].
  destruct v; try discriminate.
  intros H; injection H as <-. exact (scan_once_object_nodup _ _ _ _ E).
Qed.

Lemma try_parse_json_nodup (raw : pystr) (d : pydict) :
  try_parse_json raw = Some d -> NoDup (map fst d).
Proof.
  unfold try_parse_json. destruct (is_empty raw); [discriminate|].
  destruct (as_dict (Json.loads _)) eqn:E1.
  { intros H; injection H as <-. exact (as_dict_loads_nodup _ _ E1). }
  destruct (Re.search Re.fence_at _) as [g1|].
  - destruct (as_dict (Json.loads (strip g1))) eqn:E2.
    { intros H; injection H as <-. exact (as_dict_loads_nodup _ _ E2). }
    destruct (Re.search Re.brace_at _) as [g0|]; [|discriminate].
    apply as_dict_loads_nodup.
  - destruct (Re.search Re.brace_at _) as [g0|]; [|discriminate].
    apply as_dict_loads_nodup.
Qed.

Lemma service_try_parse_json_nodup (raw : pystr) (d : pydict) :
  VisionService.try_parse_json raw = Some d -> NoDup (map fst d).
Proof.
  unfold VisionService.try_parse_json.
  destruct (as_dict (Json.loads _)) eqn:E1.
  { intros H; injection H as <-. exact (as_dict_loads_nodup _ _ E1). }
  destruct (Re.search Re.fence_at _) as [g1|].
  - destruct (as_dict (Json.loads (strip g1))) eqn:E2.
    { intros H; injection H as <-. exact (as_dict_loads_nodup _ _ E2). }
    destruct (Re.search Re.brace_at _) as [g0|]; [|discriminate].
    apply as_dict_loads_nodup.
  - destruct (Re.search Re.brace_at _) as [g0|]; [|discriminate].
    apply as_dict_loads_nodup.
Qed.

Lemma add_field_fold_keys (doc_type : pystr) (known : list pystr)
    (parsed : pydict) (acc : list ExtractionField) :
  map key (fold_left (add_field doc_type known) parsed acc)
  = map key acc ++ map fst (filter (fun item => keeps (snd item)) parsed).
Proof.
  revert acc; induction parsed as [|[k v] rest IH]; intros acc; simpl.
  - now rewrite app_nil_r.
  - rewrite IH. unfold keeps, kept_value; simpl.
    destruct v; try reflexivity.
    destruct (is_empty (strip s)); [reflexivity|].
    rewrite map_app. simpl. rewrite <- app_assoc. reflexivity.
Qed.

Lemma nodup_map_fst_filter {A B} (f : A * B -> bool) (l : list (A * B)) :
  NoDup (map fst l) -> NoDup (map fst (filter f l)).
Proof.
  induction l as [|x l IH]; simpl; intros H; [constructor|].
  inversion H as [|? ? Hnin Hl]; subst.
  destruct (f x); simpl; [|apply IH; exact Hl].
  constructor; [|apply IH; exact Hl].
  intros Hin. apply Hnin. apply in_map_iff in Hin. destruct Hin as (y & Hy & Hyin).
  apply filter_In in Hyin. apply in_map_iff. exists y. tauto.
Qed.

(** X8.  The fields of one response have pairwise distinct keys, in
    vision-brain and in vision-service: a key the model repeats in its
    object gives one field, with the value of its last occurrence. *)
Theorem fields_keys_distinct (raw doc_type : pystr) :
  NoDup (map key (parse_json_from_response raw doc_type))
  /\ NoDup (map key (VisionServiceApp.parse_json_from_response raw doc_type))
  /\ parse_json_from_response (pyq "{'city':'Bonn','city':'Berlin'}") (py "personalausweis")
     = [ {| key := py "city"; value := py "Berlin";
            confidence := BOOSTED_CONFIDENCE; source := py "personalausweis" |} ].
Proof.
  unfold parse_json_from_response, VisionServiceApp.parse_json_from_response.
  split; [|split].
  - destruct (try_parse_json raw) as [d|] eqn:E; [|constructor].
    rewrite add_field_fold_keys. simpl.
    apply nodup_map_fst_filter. exact (try_parse_json_nodup _ _ E).
  - destruct (VisionService.try_parse_json raw) as [d|] eqn:E; [|constructor].
    rewrite add_field_fold_keys. simpl.
    apply nodup_map_fst_filter. exact (service_try_parse_json_nodup _ _ E).
  - vm_compute. reflexivity.
Qed.

(** ** More on the response parser *)

Lemma all_space_not_in (w : pystr) (c : pychar) :
  all_space w -> py_isspace c = false -> ~ In c w.
Proof.
  intros Hw Hc Hin. unfold all_space in Hw. rewrite Forall_forall in Hw.
  apply Hw in Hin. congruence.
Qed.

Lemma THINK_CLOSE_no_space : Forall (fun c => py_isspace c = false) Re.THINK_CLOSE.
Proof. repeat constructor. Qed.

Lemma THINK_OPEN_no_space : Forall (fun c => py_isspace c = false) Re.THINK_OPEN.
Proof. repeat constructor. Qed.

Lemma find_end_space (w : pystr) :
  all_space w -> Re.find_end Re.THINK_CLOSE w = None.
Proof.
  induction 1 as [|c w Hc Hw IH]; [reflexivity|].
  cbn [Re.find_end].
  change Re.THINK_CLOSE with (60%N :: py "/think>") at 1.
  rewrite strip_prefix_space_head by (auto; reflexivity).
  rewrite IH. reflexivity.
Qed.

Lemma find_end_app_space (s w : pystr) :
  all_space w -> Re.find_end Re.THINK_CLOSE (s ++ w) = Re.find_end Re.THINK_CLOSE s.
Proof.
  intros Hw. induction s as [|c s IH].
  - simpl app. rewrite find_end_space by exact Hw. reflexivity.
  - change ((c :: s) ++ w) with (c :: (s ++ w)). cbn [Re.find_end].
    change (c :: (s ++ w)) with ((c :: s) ++ w).
    rewrite (strip_prefix_app_space _ _ _ THINK_CLOSE_no_space Hw).
    destruct (strip_prefix Re.THINK_CLOSE (c :: s)); [reflexivity|].
    cbn [option_map]. rewrite IH. reflexivity.
Qed.

Lemma match_think_app_space (s w : pystr) :
  all_space w -> Re.match_think (s ++ w) = Re.match_think s.
Proof.
  intros Hw. unfold Re.match_think.
  rewrite (strip_prefix_app_space _ _ _ THINK_OPEN_no_space Hw).
  destruct (strip_prefix Re.THINK_OPEN s) as [r|]; [|reflexivity].
  cbn [option_map]. rewrite find_end_app_space by exact Hw. reflexivity.
Qed.

Lemma find_end_length (p s : pystr) (n : nat) :
  Re.find_end p s = Some n -> n <= List.length s.
Proof.
  revert n; induction s as [|c s IH]; intros n; cbn [Re.find_end].
  - destruct (strip_prefix p []) as [r|] eqn:E; [|discriminate].
    intros H; injection H as <-. apply strip_prefix_length in E. lia.
  - destruct (strip_prefix p (c :: s)) as [r|] eqn:E.
    + intros H; injection H as <-. apply strip_prefix_length in E. lia.
    + destruct (Re.find_end p s) as [m|]; [|discriminate].
      intros H; injection H as <-. specialize (IH m eq_refl). simpl. lia.
Qed.

Lemma match_think_length (s : pystr) (n : nat) :
  Re.match_think s = Some n -> 1 <= n <= List.length s.
Proof.
  unfold Re.match_think.
  destruct (strip_prefix Re.THINK_OPEN s) as [r|] eqn:E; [|discriminate].
  destruct (Re.find_end Re.THINK_CLOSE r) as [m|] eqn:Em; [|discriminate].
  intros H; injection H as <-.
  apply strip_prefix_length in E. apply find_end_length in Em. simpl in *. lia.
Qed.

Lemma sub_go_app_space (w : pystr) :
  all_space w ->
  forall s k, k <= List.length s -> Re.sub_go k (s ++ w) = Re.sub_go k s ++ w.
Proof.
  intros Hw. induction s as [|x s IH]; intros k Hk.
  - assert (k = 0) by (simpl in Hk; lia). subst k. simpl app.
    rewrite <- (app_nil_r w) at 1.
    rewrite sub_go_pre by (apply all_space_not_in; [exact Hw | reflexivity]).
    simpl. apply app_nil_r.
  - change ((x :: s) ++ w) with (x :: (s ++ w)). cbn [Re.sub_go].
    destruct k as [|k].
    + change (x :: (s ++ w)) with ((x :: s) ++ w).
      rewrite match_think_app_space by exact Hw.
      destruct (Re.match_think (x :: s)) as [n|] eqn:Em.
      * apply match_think_length in Em. apply IH. simpl in Em. lia.
      * rewrite IH by lia. reflexivity.
    + apply IH. simpl in Hk. lia.
Qed.

Lemma sub_think_pad (w1 s w2 : pystr) :
  all_space w1 -> all_space w2 ->
  Re.sub_think (w1 ++ s ++ w2) = w1 ++ Re.sub_think s ++ w2.
Proof.
  intros H1 H2. unfold Re.sub_think.
  rewrite sub_go_pre by (apply all_space_not_in; [exact H1 | reflexivity]).
  rewrite (sub_go_app_space w2 H2 s 0) by lia. reflexivity.
Qed.

Lemma lstrip_skip (w t : pystr) : all_space w -> lstrip (w ++ t) = lstrip t.
Proof. induction 1 as [|c w Hc Hw IH]; simpl; [reflexivity|]. rewrite Hc. exact IH. Qed.

Lemma rstrip_app_space (t w : pystr) : all_space w -> rstrip (t ++ w) = rstrip t.
Proof.
  intros Hw. unfold rstrip. rewrite rev_app_distr.
  rewrite lstrip_skip by (apply all_space_rev; exact Hw). reflexivity.
Qed.

Lemma strip_pad (w1 s w2 : pystr) :
  all_space w1 -> all_space w2 -> strip (w1 ++ s ++ w2) = strip s.
Proof.
  intros H1 H2. unfold strip. rewrite lstrip_skip by exact H1.
  destruct (lstrip_app_space s w2 H2) as [-> | [-> ->]].
  - apply rstrip_app_space. exact H2.
  - reflexivity.
Qed.

Lemma search_pad {A} (match_at : pystr -> option A) (w1 s w2 : pystr) :
  (forall c t, py_isspace c = true -> match_at (c :: t) = None) ->
  match_at [] = None ->
  (forall t w, all_space w -> match_at (t ++ w) = match_at t) ->
  all_space w1 -> all_space w2 ->
  Re.search match_at (w1 ++ s ++ w2) = Re.search match_at s.
Proof.
  intros Hsp Hnil Happ H1 H2.
  rewrite search_skip.
  - apply search_app; [intros t; apply Happ; exact H2|].
    apply search_space_none; [exact Hnil|].
    intros c t Hin. apply Hsp.
    unfold all_space in H2. rewrite Forall_forall in H2. apply H2. exact Hin.
  - intros c t Hin. apply Hsp.
    unfold all_space in H1. rewrite Forall_forall in H1. apply H1. exact Hin.
Qed.

(** X9.  Whitespace before and after the model output never changes
    what the parser returns, in vision-brain and in vision-service. *)
Theorem try_parse_json_padding (w1 raw w2 : pystr) :
  all_space w1 -> all_space w2 ->
  try_parse_json (w1 ++ raw ++ w2) = try_parse_json raw
  /\ VisionService.try_parse_json (w1 ++ raw ++ w2) = VisionService.try_parse_json raw.
Proof.
  intros H1 H2. split.
  - rewrite !try_parse_json_unfold.
    rewrite sub_think_pad by assumption. rewrite strip_pad by assumption.
    destruct raw as [|c raw].
    + destruct (is_empty (w1 ++ [] ++ w2)); reflexivity.
    + assert (He : is_empty (w1 ++ (c :: raw) ++ w2) = false)
        by (destruct w1; reflexivity).
      rewrite He. reflexivity.
  - unfold VisionService.try_parse_json.
    rewrite strip_pad by assumption.
    rewrite (search_pad Re.fence_at w1 raw w2); try assumption;
      [| apply fence_at_space | reflexivity | apply fence_at_app_space].
    rewrite (search_pad Re.brace_at w1 raw w2); try assumption;
      [| apply brace_at_space | reflexivity | apply brace_at_app_space].
    reflexivity.
Qed.

(** X9 on the padded text of the test suite. *)
Lemma try_parse_json_padding_witness :
  (all_space (py "  " ++ NL ++ py "  ") /\ all_space (py "  " ++ NL ++ py "  "))
  /\ try_parse_json ((py "  " ++ NL ++ py "  ") ++ pyq "{'key': 'value'}"
                     ++ (py "  " ++ NL ++ py "  "))
     = try_parse_json (pyq "{'key': 'value'}")
  /\ try_parse_json (pyq "{'key': 'value'}") = Some [ (py "key", JString (py "value")) ].
Proof.
  assert (Hw : all_space (py "  " ++ NL ++ py "  ")) by (repeat constructor).
  split; [split; exact Hw|]. split; [|vm_compute; reflexivity].
  exact (proj1 (try_parse_json_padding _ (pyq "{'key': 'value'}") _ Hw Hw)).
Defined.

Lemma brace_body_no_close (a rest : pystr) :
  ~ In 125%N a -> Re.brace_body (a ++ 123%N :: rest) = None.
Proof.
  induction a as [|x a IH]; intros Hno; [reflexivity|].
  change ((x :: a) ++ 123%N :: rest) with (x :: (a ++ 123%N :: rest)).
  cbn [Re.brace_body].
  destruct (N.eqb_spec x 125) as [->|]; [exfalso; apply Hno; left; reflexivity|].
  destruct (x =? 123)%N; [reflexivity|].
  rewrite IH by (intros H; apply Hno; right; exact H). reflexivity.
Qed.

Lemma brace_body_found (body post : pystr) :
  ~ In 123%N body -> ~ In 125%N body ->
  Re.brace_body (body ++ 125%N :: post) = Some (body ++ [125%N]).
Proof.
  induction body as [|x body IH]; intros Ho Hc; [reflexivity|].
  change ((x :: body) ++ 125%N :: post) with (x :: (body ++ 125%N :: post)).
  cbn [Re.brace_body].
  destruct (N.eqb_spec x 125) as [->|]; [exfalso; apply Hc; left; reflexivity|].
  destruct (N.eqb_spec x 123) as [->|]; [exfalso; apply Ho; left; reflexivity|].
  rewrite IH; [reflexivity | |]; intros H; [apply Ho | apply Hc]; right; exact H.
Qed.

Lemma search_brace_first (a body post : pystr) :
  ~ In 125%N a -> ~ In 123%N body -> ~ In 125%N body ->
  Re.search Re.brace_at (a ++ 123%N :: body ++ 125%N :: post)
  = Some (123%N :: body ++ [125%N]).
Proof.
  intros Ha Ho Hc. induction a as [|x a IH].
  - simpl app. cbn [Re.search Re.brace_at]. simpl N.eqb. cbv iota.
    rewrite brace_body_found by assumption. reflexivity.
  - change ((x :: a) ++ 123%N :: body ++ 125%N :: post)
      with (x :: (a ++ 123%N :: body ++ 125%N :: post)).
    assert (Hx : Re.brace_at (x :: (a ++ 123%N :: body ++ 125%N :: post)) = None).
    { cbn [Re.brace_at]. destruct (x =? 123)%N; [|reflexivity].
      rewrite brace_body_no_close by (intros H; apply Ha; right; exact H). reflexivity. }
    cbn [Re.search].
    rewrite Hx. apply IH. intros H; apply Ha; right; exact H.
Qed.

Lemma fence_at_backquote (s g : pystr) : Re.fence_at s = Some g -> In 96%N s.
Proof.
  unfold Re.fence_at. destruct (strip_prefix Re.FENCE s) as [s1|] eqn:E; [|discriminate].
  intros _. apply strip_prefix_spec in E. subst s. left; reflexivity.
Qed.

Lemma search_fence_no_backquote (s : pystr) :
  ~ In 96%N s -> Re.search Re.fence_at s = None.
Proof.
  intros Hno. destruct (Re.search Re.fence_at s) as [g|] eqn:E; [|reflexivity].
  exfalso. apply Hno. revert E.
  apply (search_incl Re.fence_at (fun _ t => In 96%N t)).
  - intros t m. apply fence_at_backquote.
  - intros m x t Ht. right; exact Ht.
Qed.

(** X10.  The brace strategy takes the first closing brace of the text
    and the nearest opening brace before it: of a text that holds no
    closing brace before an opening brace followed by a brace-free body
    and its closing brace, the search returns that innermost fragment.
    So for a text without reasoning marker and backquote that is not an
    object as a whole, the result is decided by that one fragment: an
    enclosing object is not returned (after a preamble, a nested object
    yields its first inner object), and a later fragment is never tried
    (a broken first fragment gives none). *)
Theorem brace_strategy_first_fragment (a body post : pystr) :
  ~ In 125%N a -> ~ In 123%N body -> ~ In 125%N body ->
  let text := a ++ 123%N :: body ++ 125%N :: post in
  Re.search Re.brace_at text = Some (123%N :: body ++ [125%N])
  /\ (contains Re.THINK_OPEN text = false -> ~ In 96%N text ->
      as_dict (Json.loads (strip text)) = None ->
      try_parse_json text = as_dict (Json.loads (123%N :: body ++ [125%N])))
  /\ try_parse_json (pyq "Result: {'person': {'first_name': 'Max'}, 'ok': 'yes'}")
     = Some [ (py "first_name", JString (py "Max")) ]
  /\ try_parse_json (pyq "{bad} {'first_name': 'Max'}") = None.
Proof.
  intros Ha Ho Hc text.
  assert (Hs : Re.search Re.brace_at text = Some (123%N :: body ++ [125%N]))
    by (apply search_brace_first; assumption).
  split; [exact Hs|]. split; [|split; vm_compute; reflexivity].
  intros Hthink Hbq Hdirect. rewrite try_parse_json_unfold.
  assert (He : is_empty text = false) by (subst text; destruct a; reflexivity).
  rewrite He, (sub_think_no_marker _ Hthink), Hdirect.
  unfold later_strategies.
  rewrite search_fence_strip, search_brace_strip.
  rewrite (search_fence_no_backquote _ Hbq), Hs. reflexivity.
Qed.

(** X10 on a nested object after a preamble. *)
Lemma brace_strategy_first_fragment_witness :
  (~ In 125%N (pyq "Result: {'person': ") /\
   ~ In 123%N (pyq "'first_name': 'Max'") /\ ~ In 125%N (pyq "'first_name': 'Max'"))
  /\ Re.search Re.brace_at
       (pyq "Result: {'person': " ++ 123%N :: pyq "'first_name': 'Max'"
        ++ 125%N :: pyq ", 'ok': 'yes'}")
     = Some (123%N :: pyq "'first_name': 'Max'" ++ [125%N])
  /\ try_parse_json
       (pyq "Result: {'person': " ++ 123%N :: pyq "'first_name': 'Max'"
        ++ 125%N :: pyq ", 'ok': 'yes'}")
     = as_dict (Json.loads (123%N :: pyq "'first_name': 'Max'" ++ [125%N])).
Proof.
  assert (H1 : ~ In 125%N (pyq "Result: {'person': ")).
  { vm_compute. intros H. repeat (destruct H as [H | H]; [discriminate H|]). exact H. }
  assert (H2 : ~ In 123%N (pyq "'first_name': 'Max'")).
  { vm_compute. intros H. repeat (destruct H as [H | H]; [discriminate H|]). exact H. }
  assert (H3 : ~ In 125%N (pyq "'first_name': 'Max'")).
  { vm_compute. intros H. repeat (destruct H as [H | H]; [discriminate H|]). exact H. }
  split; [tauto|].
  pose proof (brace_strategy_first_fragment _ _ (pyq ", 'ok': 'yes'}") H1 H2 H3) as T.
  cbv zeta in T. destruct T as [T1 [T2 _]].
  split; [exact T1|]. apply T2.
  - vm_compute; reflexivity.
  - vm_compute. intros H. repeat (destruct H as [H | H]; [discriminate H|]). exact H.
  - vm_compute; reflexivity.
Defined.

(** ** More on the preprocessing stages *)

Lemma Qltb_lt (a b : Q) : Qltb a b = true <-> (a < b)%Q.
Proof.
  unfold Qltb. rewrite negb_true_iff. split.
  - intros H. apply Qnot_le_lt. intros Hle. apply Qle_bool_iff in Hle. congruence.
  - intros H. destruct (Qle_bool b a) eqn:E; [|reflexivity].
    apply Qle_bool_iff in E. exfalso. apply (Qlt_not_le _ _ H E).
Qed.

Lemma Qltb_ge (a b : Q) : Qltb a b = false <-> (b <= a)%Q.
Proof.
  unfold Qltb. rewrite negb_false_iff. apply Qle_bool_iff.
Qed.

(** [np.argmin] and [np.argmax] return the index of an extreme value. *)
Lemma arg_best_value (better : Q -> Q -> bool) :
  (forall a, better a a = false) ->
  (forall a b c, better a b = true -> better b c = true -> better a c = true) ->
  (forall a b c, better a b = false -> better b c = false -> better a c = false) ->
  forall (l pre : list Q) (bi : nat) (b : Q),
    bi < List.length pre -> nth bi pre 0%Q = b ->
    let r := arg_best better l (List.length pre) bi b in
    r < List.length (pre ++ l) /\
    forall y, In y (b :: l) -> better y (nth r (pre ++ l) 0%Q) = false.
Proof.
  intros Hirr Htr Hneg. induction l as [|x tl IH]; intros pre bi b Hbi Hb; cbn [arg_best].
  - rewrite app_nil_r. split; [exact Hbi|].
    intros y [<-|[]]. rewrite Hb. apply Hirr.
  - replace (pre ++ x :: tl) with ((pre ++ [x]) ++ tl) by (rewrite <- app_assoc; reflexivity).
    assert (Hlen : S (List.length pre) = List.length (pre ++ [x]))
      by (rewrite length_app; simpl; lia).
    rewrite Hlen.
    destruct (better x b) eqn:Hx.
    + assert (Hi : List.length pre < List.length (pre ++ [x])) by lia.
      assert (Hn : nth (List.length pre) (pre ++ [x]) 0%Q = x)
        by (rewrite app_nth2, Nat.sub_diag by lia; reflexivity).
      replace (arg_best better tl (List.length (pre ++ [x])) (List.length pre) x)
        with (arg_best better tl (List.length (pre ++ [x])) (List.length pre) x)
        by reflexivity.
      destruct (IH (pre ++ [x]) (List.length pre) x Hi Hn) as [Hr Hall].
      split; [exact Hr|].
      intros y [<-|Hy]; [|apply Hall; exact Hy].
      specialize (Hall x (or_introl eq_refl)).
      destruct (better b (nth _ ((pre ++ [x]) ++ tl) 0%Q)) eqn:E; [|reflexivity].
      rewrite (Htr _ _ _ Hx E) in Hall. discriminate.
    + assert (Hi : bi < List.length (pre ++ [x])) by lia.
      assert (Hn : nth bi (pre ++ [x]) 0%Q = b) by (rewrite app_nth1 by exact Hbi; exact Hb).
      destruct (IH (pre ++ [x]) bi b Hi Hn) as [Hr Hall].
      split; [exact Hr|].
      intros y [<-|[<-|Hy]].
      * apply Hall. left; reflexivity.
      * apply (Hneg _ _ _ Hx). apply Hall. left; reflexivity.
      * apply Hall. right; exact Hy.
Qed.

Lemma argmin_least (l : list Q) :
  l <> [] ->
  argmin l < List.length l /\
  forall y, In y l -> Qltb y (nth (argmin l) l 0%Q) = false.
Proof.
  destruct l as [|x tl]; [congruence|]. intros _. unfold argmin.
  apply (arg_best_value Qltb) with (pre := [x]) (bi := 0); [| | |simpl; lia|reflexivity].
  - intros a. apply Qltb_ge. apply Qle_refl.
  - intros a b c. rewrite !Qltb_lt. apply Qlt_trans.
  - intros a b c. rewrite !Qltb_ge. intros H1 H2. apply (Qle_trans _ _ _ H2 H1).
Qed.

Lemma argmax_greatest (l : list Q) :
  l <> [] ->
  argmax l < List.length l /\
  forall y, In y l -> Qltb (nth (argmax l) l 0%Q) y = false.
Proof.
  destruct l as [|x tl]; [congruence|]. intros _. unfold argmax.
  apply (arg_best_value (fun a b => Qltb b a)) with (pre := [x]) (bi := 0);
    [| | |simpl; lia|reflexivity].
  - intros a. apply Qltb_ge. apply Qle_refl.
  - intros a b c. rewrite !Qltb_lt. intros H1 H2. apply (Qlt_trans _ _ _ H2 H1).
  - intros a b c. rewrite !Qltb_ge. apply Qle_trans.
Qed.

Lemma nth_map_point (f : point -> Q) (pts : list point) (i : nat) :
  i < List.length pts ->
  nth i (map f pts) 0%Q = f (nth i pts (0%Q, 0%Q)).
Proof.
  intros Hi. rewrite (nth_indep _ 0%Q (f (0%Q, 0%Q))) by (rewrite length_map; exact Hi).
  apply map_nth.
Qed.

Lemma pick_least (f : point -> Q) (pts : list point) :
  pts <> [] ->
  let p := nth (argmin (map f pts)) pts (0%Q, 0%Q) in
  In p pts /\ forall q, In q pts -> Qltb (f q) (f p) = false.
Proof.
  intros Hne.
  assert (Hm : map f pts <> []) by (destruct pts; [congruence|discriminate]).
  destruct (argmin_least _ Hm) as [Hlt Hall]. rewrite length_map in Hlt.
  split; [apply nth_In; exact Hlt|].
  intros q Hq. rewrite <- nth_map_point by exact Hlt.
  apply Hall. apply in_map. exact Hq.
Qed.

Lemma pick_greatest (f : point -> Q) (pts : list point) :
  pts <> [] ->
  let p := nth (argmax (map f pts)) pts (0%Q, 0%Q) in
  In p pts /\ forall q, In q pts -> Qltb (f p) (f q) = false.
Proof.
  intros Hne.
  assert (Hm : map f pts <> []) by (destruct pts; [congruence|discriminate]).
  destruct (argmax_greatest _ Hm) as [Hlt Hall]. rewrite length_map in Hlt.
  split; [apply nth_In; exact Hlt|].
  intros q Hq. rewrite <- nth_map_point by exact Hlt.
  apply Hall. apply in_map. exact Hq.
Qed.

Lemma _order_points_extremes (pts : list point) :
  pts <> [] ->
  let '(tl, tr, br, bl) := _order_points pts in
  let s := fun p : point => Qplus (fst p) (snd p) in
  let d := fun p : point => Qminus (snd p) (fst p) in
  (In tl pts /\ forall q, In q pts -> Qltb (s q) (s tl) = false) /\
  (In tr pts /\ forall q, In q pts -> Qltb (d q) (d tr) = false) /\
  (In br pts /\ forall q, In q pts -> Qltb (s br) (s q) = false) /\
  (In bl pts /\ forall q, In q pts -> Qltb (d bl) (d q) = false).
Proof.
  intros Hne. unfold _order_points.
  pose proof (pick_least (fun p => Qplus (fst p) (snd p)) pts Hne) as [H1 H1'].
  pose proof (pick_least (fun p => Qminus (snd p) (fst p)) pts Hne) as [H2 H2'].
  pose proof (pick_greatest (fun p => Qplus (fst p) (snd p)) pts Hne) as [H3 H3'].
  pose proof (pick_greatest (fun p => Qminus (snd p) (fst p)) pts Hne) as [H4 H4'].
  repeat split; assumption.
Qed.

Lemma candidate_rect_extremes (approx : contour) :
  approx <> [] ->
  let inj := fun p : Z * Z => (inject_Z (fst p), inject_Z (snd p)) in
  let '(tl, tr, br, bl) := candidate_rect approx in
  (exists p, In p approx /\ tl = inj p /\
     forall q, In q approx -> (fst p + snd p <= fst q + snd q)%Z) /\
  (exists p, In p approx /\ tr = inj p /\
     forall q, In q approx -> (snd p - fst p <= snd q - fst q)%Z) /\
  (exists p, In p approx /\ br = inj p /\
     forall q, In q approx -> (fst q + snd q <= fst p + snd p)%Z) /\
  (exists p, In p approx /\ bl = inj p /\
     forall q, In q approx -> (snd q - fst q <= snd p - fst p)%Z).
Proof.
  intros Hne inj. unfold candidate_rect. fold inj.
  assert (Hm : map inj approx <> []) by (destruct approx; [congruence|discriminate]).
  pose proof (_order_points_extremes (map inj approx) Hm) as H.
  destruct (_order_points (map inj approx)) as [[[tl tr] br] bl].
  cbv zeta in H. destruct H as [[I1 L1] [[I2 L2] [[I3 L3] [I4 L4]]]].
  apply in_map_iff in I1, I2, I3, I4.
  destruct I1 as [p1 [E1 I1]], I2 as [p2 [E2 I2]], I3 as [p3 [E3 I3]], I4 as [p4 [E4 I4]].
  subst tl tr br bl.
  repeat split.
  - exists p1. repeat split; [exact I1|]. intros q Hq.
    specialize (L1 (inj q) (in_map inj _ _ Hq)). apply Qltb_ge in L1.
    unfold inj, Qle, Qplus, inject_Z in L1. simpl in L1. lia.
  - exists p2. repeat split; [exact I2|]. intros q Hq.
    specialize (L2 (inj q) (in_map inj _ _ Hq)). apply Qltb_ge in L2.
    unfold inj, Qle, Qminus, Qplus, Qopp, inject_Z in L2. simpl in L2. lia.
  - exists p3. repeat split; [exact I3|]. intros q Hq.
    specialize (L3 (inj q) (in_map inj _ _ Hq)). apply Qltb_ge in L3.
    unfold inj, Qle, Qplus, inject_Z in L3. simpl in L3. lia.
  - exists p4. repeat split; [exact I4|]. intros q Hq.
    specialize (L4 (inj q) (in_map inj _ _ Hq)). apply Qltb_ge in L4.
    unfold inj, Qle, Qminus, Qplus, Qopp, inject_Z in L4. simpl in L4. lia.
Qed.

Lemma candidate_rect_rectangle (approx : contour) (x y w h : Z) :
  (0 < w)%Z -> (0 < h)%Z ->
  (forall p, In p approx <-> In p [ (x, y); (x + w, y); (x + w, y + h); (x, y + h) ]%Z) ->
  candidate_rect approx
  = ((inject_Z x, inject_Z y), (inject_Z (x + w), inject_Z y),
     (inject_Z (x + w), inject_Z (y + h)), (inject_Z x, inject_Z (y + h))).
Proof.
  intros Hw Hh Hin.
  assert (Hne : approx <> []).
  { intros ->. apply (proj2 (Hin (x, y))). left; reflexivity. }
  pose proof (candidate_rect_extremes approx Hne) as H. cbv zeta in H.
  destruct (candidate_rect approx) as [[[tl tr] br] bl].
  destruct H as [[p1 [I1 [E1 L1]]] [[p2 [I2 [E2 L2]]] [[p3 [I3 [E3 L3]]] [p4 [I4 [E4 L4]]]]]].
  assert (C1 : In (x, y) approx) by (apply Hin; simpl; auto).
  assert (C2 : In (x + w, y)%Z approx) by (apply Hin; simpl; auto).
  assert (C3 : In (x + w, y + h)%Z approx) by (apply Hin; simpl; auto).
  assert (C4 : In (x, y + h)%Z approx) by (apply Hin; simpl; auto).
  apply Hin in I1, I2, I3, I4.
  assert (P1 : p1 = (x, y)).
  { specialize (L1 _ C1).
    destruct I1 as [<-|[<-|[<-|[<-|[]]]]]; simpl in L1; try reflexivity; lia. }
  assert (P2 : p2 = (x + w, y)%Z).
  { specialize (L2 _ C2).
    destruct I2 as [<-|[<-|[<-|[<-|[]]]]]; simpl in L2; try reflexivity; lia. }
  assert (P3 : p3 = (x + w, y + h)%Z).
  { specialize (L3 _ C3).
    destruct I3 as [<-|[<-|[<-|[<-|[]]]]]; simpl in L3; try reflexivity; lia. }
  assert (P4 : p4 = (x, y + h)%Z).
  { specialize (L4 _ C4).
    destruct I4 as [<-|[<-|[<-|[<-|[]]]]]; simpl in L4; try reflexivity; lia. }
  subst. reflexivity.
Qed.

(** X11.  [_order_points] names, among the points it is given, one of
    least x+y as top-left, one of least y-x as top-right, one of
    greatest x+y as bottom-right and one of greatest y-x as bottom-left.
    So the four corners of an axis-parallel rectangle, in whatever order
    (and however often) the contour lists them, come out as top-left,
    top-right, bottom-right, bottom-left.  The sums and differences of a
    square standing on a corner tie, and there the result names one
    corner twice and leaves one out. *)
Theorem _order_points_rectangle (approx : contour) (x y w h : Z) :
  (0 < w)%Z -> (0 < h)%Z ->
  (forall p, In p approx <-> In p [ (x, y); (x + w, y); (x + w, y + h); (x, y + h) ]%Z) ->
  candidate_rect approx
  = ((inject_Z x, inject_Z y), (inject_Z (x + w), inject_Z y),
     (inject_Z (x + w), inject_Z (y + h)), (inject_Z x, inject_Z (y + h)))
  /\ _order_points [ (0, 1); (1, 0); (2, 1); (1, 2) ]%Q
     = ((0, 1), (1, 0), (2, 1), (0, 1))%Q.
Proof.
  intros Hw Hh Hin. split; [|vm_compute; reflexivity].
  apply candidate_rect_rectangle; assumption.
Qed.

(** X11 on a rectangle whose contour starts at the bottom-right corner
    and runs the other way round. *)
Lemma _order_points_rectangle_witness :
  candidate_rect [ (600, 420); (600, 80); (100, 80); (100, 420) ]%Z
  = ((inject_Z 100, inject_Z 80), (inject_Z (100 + 500), inject_Z 80),
     (inject_Z (100 + 500), inject_Z (80 + 340)), (inject_Z 100, inject_Z (80 + 340))).
Proof.
  refine (proj1 (_order_points_rectangle _ 100 80 500 340 _ _ _)); try lia.
  intros p; simpl; intuition.
Defined.

Lemma near_target_ranges (h w : Z) :
  near_target h w = true <->
  ((h < w /\ 922 <= w <= 1126 /\ 692 <= h <= 844)
   \/ (w <= h /\ 692 <= w <= 844 /\ 922 <= h <= 1126))%Z.
Proof.
  unfold near_target, resize_target, TARGET_LANDSCAPE, TARGET_PORTRAIT.
  destruct (Z.ltb_spec h w); cbn [fst snd]; rewrite andb_true_iff;
    rewrite within_tenth_1024, within_tenth_768; lia.
Qed.

(** X12.  With a library whose resize returns an image of the size asked
    for, the resize stage returns an image whose two dimensions are
    within 10% of a preset, and running the stage on its own output
    changes nothing.  The output is the input when the input is already
    in range (landscape: width 922..1126 and height 692..844; portrait or
    square: width 692..844 and height 922..1126), and has exactly the
    preset size 1024 x 768 or 768 x 1024 otherwise. *)
Theorem _resize_idempotent (cv : cv2_api) (img : ndarray cv) :
  cv2_sizes cv ->
  exists out,
    _resize cv img = Ret out
    /\ _resize cv out = Ret out
    /\ (let (h, w) := cv2_shape cv img in
        if near_target h w then out = img
        else cv2_shape cv out = (if (h <? w)%Z then (768, 1024) else (1024, 768))%Z)
    /\ (let (h', w') := cv2_shape cv out in
        (h' < w' /\ 922 <= w' <= 1126 /\ 692 <= h' <= 844)
        \/ (w' <= h' /\ 692 <= w' <= 844 /\ 922 <= h' <= 1126))%Z.
Proof.
  intros Hcv.
  pose proof (_resize_cases cv img) as Hc. cbv zeta in Hc.
  destruct Hc as [Hnear [Hfar _]].
  destruct (cv2_shape cv img) as [h w] eqn:Hs. cbn [fst snd] in Hnear, Hfar.
  destruct (near_target h w) eqn:Hn.
  - exists img. rewrite (Hnear eq_refl). repeat split; try reflexivity.
    rewrite Hs. apply near_target_ranges. exact Hn.
  - assert (Ht : exists out, cv2_resize cv img (resize_target h w) = Ret out
                 /\ cv2_shape cv out
                    = (if (h <? w)%Z then (768, 1024) else (1024, 768))%Z).
    { unfold resize_target, TARGET_LANDSCAPE, TARGET_PORTRAIT.
      destruct (h <? w)%Z; apply (resize_size cv Hcv); lia. }
    destruct Ht as [out [Hr Hso]]. exists out.
    assert (Hno : near_target (fst (cv2_shape cv out)) (snd (cv2_shape cv out)) = true).
    { rewrite Hso. destruct (h <? w)%Z; vm_compute; reflexivity. }
    split; [apply (Hfar eq_refl); exact Hr|]. split; [|split].
    + apply (proj1 (_resize_cases cv out)). exact Hno.
    + exact Hso.
    + apply near_target_ranges in Hno. destruct (cv2_shape cv out). exact Hno.
Qed.

(** X12 on a 3000 x 4000 photo in the simulated library. *)
Lemma _resize_idempotent_witness :
  cv2_sizes Sim.cv2 /\
  exists out,
    _resize Sim.cv2 (Sim.blank 3000 4000) = Ret out
    /\ _resize Sim.cv2 out = Ret out
    /\ cv2_shape Sim.cv2 out = (768, 1024)%Z.
Proof.
  split; [exact sim_sizes|].
  destruct (_resize_idempotent Sim.cv2 (Sim.blank 3000 4000) sim_sizes)
    as [out [H1 [H2 [H3 _]]]].
  exists out. repeat split; [exact H1 | exact H2 | exact H3].
Defined.



















(** ** vision-service and vision-gpu *)




Lemma key_in_In (k : pystr) (known : list pystr) :
  key_in k known = true <-> In k known.
Proof.
  unfold key_in. rewrite existsb_exists. split.
  - intros [x [Hin Heq]]. apply pystr_eqb_spec in Heq. subst x. exact Hin.
  - intros Hin. exists k. split; [exact Hin|]. apply pystr_eqb_spec. reflexivity.
Qed.

Ltac each_key H :=
  repeat (destruct H as [H|H]; [subst; vm_compute; try reflexivity|]);
  try (destruct H).

(** Every key vision-service expects, vision-brain expects too. *)
Lemma expected_keys_subset (doc_type k : pystr) :
  key_in k (VisionServiceApp.expected_keys doc_type) = true ->
  key_in k (EXPECTED_KEYS doc_type) = true.
Proof.
  unfold VisionServiceApp.expected_keys, EXPECTED_KEYS,
    VisionServiceApp.expected_keys_table, EXPECTED_KEYS_table.
  cbn [dict_get].
  destruct (pystr_eqb doc_type (py "personalausweis")).
  { intros H. apply key_in_In in H. cbn [map In] in H. each_key H. }
  destruct (pystr_eqb doc_type (py "reisepass")).
  { intros H. apply key_in_In in H. cbn [map In] in H. each_key H. }
  destruct (pystr_eqb doc_type (py "fuehrerschein")).
  { intros H. apply key_in_In in H. cbn [map In] in H. each_key H. }
  intros H. exact H.
Qed.

Lemma expected_keys_diff (doc_type k : pystr) :
  key_in k (EXPECTED_KEYS doc_type) = true ->
  key_in k (VisionServiceApp.expected_keys doc_type) = false ->
  In k address_keys.
Proof.
  unfold VisionServiceApp.expected_keys, EXPECTED_KEYS,
    VisionServiceApp.expected_keys_table, EXPECTED_KEYS_table.
  cbn [dict_get].
  destruct (pystr_eqb doc_type (py "personalausweis")).
  { intros H. apply key_in_In in H. cbn [map In] in H.
    repeat (destruct H as [H|H];
            [subst; intros H';
             first [ discriminate H' | apply key_in_In; vm_compute; reflexivity ] |]).
    destruct H. }
  destruct (pystr_eqb doc_type (py "reisepass")).
  { intros H. apply key_in_In in H. cbn [map In] in H.
    repeat (destruct H as [H|H];
            [subst; intros H';
             first [ discriminate H' | apply key_in_In; vm_compute; reflexivity ] |]).
    destruct H. }
  destruct (pystr_eqb doc_type (py "fuehrerschein")).
  { intros H H'. congruence. }
  intros H. discriminate H.
Qed.

Lemma add_field_agrees (doc_type : pystr) (item : pystr * json)
    (fb fs : list ExtractionField) :
  Forall2 field_agrees fb fs ->
  Forall2 field_agrees
    (add_field doc_type (EXPECTED_KEYS doc_type) fb item)
    (add_field doc_type (VisionServiceApp.expected_keys doc_type) fs item).
Proof.
  intros H. destruct item as [k v]. unfold add_field.
  destruct v; try exact H.
  destruct (is_empty (strip s)); [exact H|].
  apply Forall2_app; [exact H|]. constructor; [|constructor].
  unfold field_agrees. cbn [key value source confidence].
  repeat split.
  destruct (key_in k (EXPECTED_KEYS doc_type)) eqn:Eb;
    destruct (key_in k (VisionServiceApp.expected_keys doc_type)) eqn:Es.
  - left; reflexivity.
  - right. split; [|split; reflexivity].
    apply (expected_keys_diff doc_type); assumption.
  - apply expected_keys_subset in Es. congruence.
  - left; reflexivity.
Qed.

Lemma fold_add_field_agrees (doc_type : pystr) (parsed : pydict) :
  forall fb fs,
    Forall2 field_agrees fb fs ->
    Forall2 field_agrees
      (fold_left (add_field doc_type (EXPECTED_KEYS doc_type)) parsed fb)
      (fold_left (add_field doc_type (VisionServiceApp.expected_keys doc_type)) parsed fs).
Proof.
  induction parsed as [|item rest IH]; intros fb fs H; cbn [fold_left]; [exact H|].
  apply IH. apply add_field_agrees. exact H.
Qed.

Lemma dict_get_keys {V W} (d1 : list (pystr * V)) (d2 : list (pystr * W)) (k : pystr) :
  map fst d1 = map fst d2 ->
  (dict_get d1 k = None <-> dict_get d2 k = None).
Proof.
  revert d2; induction d1 as [|[k1 v1] t1 IH]; intros [|[k2 v2] t2] H;
    try discriminate; [split; reflexivity|].
  simpl in H. injection H as -> Ht. cbn [dict_get].
  destruct (pystr_eqb k k2); [split; discriminate|]. apply IH. exact Ht.
Qed.

(** X16.  vision-brain and vision-service beside each other.  They serve
    the same document types.  On a model output without reasoning marker
    they build the same fields in the same order, with the same keys,
    values and sources; the confidences differ only for [birth_place]
    and the address keys, which vision-brain alone expects: there
    vision-brain gives the boosted and vision-service the base
    confidence. *)
Theorem services_agree_up_to_confidence (raw doc_type : pystr) :
  contains Re.THINK_OPEN raw = false ->
  Forall2 field_agrees
    (parse_json_from_response raw doc_type)
    (VisionServiceApp.parse_json_from_response raw doc_type)
  /\ (PROMPTS doc_type = None <-> VisionServiceApp.PROMPTS doc_type = None).
Proof.
  intros Hno. split.
  - unfold parse_json_from_response, VisionServiceApp.parse_json_from_response.
    assert (E : try_parse_json raw = VisionService.try_parse_json raw).
    { unfold try_parse_json, VisionService.try_parse_json.
      destruct raw as [|c raw]; [reflexivity|].
      cbn [is_empty]. rewrite (sub_think_no_marker _ Hno).
      rewrite search_fence_strip, search_brace_strip. reflexivity. }
    rewrite E. destruct (VisionService.try_parse_json raw) as [parsed|]; [|constructor].
    apply fold_add_field_agrees. constructor.
  - apply dict_get_keys. reflexivity.
Qed.

(** X16 on an identity card with an address field. *)
Lemma services_agree_up_to_confidence_witness :
  contains Re.THINK_OPEN (pyq "{'first_name': 'Max', 'city': 'Bonn'}") = false
  /\ Forall2 field_agrees
       [ {| key := py "first_name"; value := py "Max";
            confidence := BOOSTED_CONFIDENCE; source := py "personalausweis" |};
         {| key := py "city"; value := py "Bonn";
            confidence := BOOSTED_CONFIDENCE; source := py "personalausweis" |} ]
       [ {| key := py "first_name"; value := py "Max";
            confidence := BOOSTED_CONFIDENCE; source := py "personalausweis" |};
         {| key := py "city"; value := py "Bonn";
            confidence := BASE_CONFIDENCE; source := py "personalausweis" |} ].
Proof.
  assert (H : contains Re.THINK_OPEN (pyq "{'first_name': 'Max', 'city': 'Bonn'}") = false)
    by (vm_compute; reflexivity).
  split; [exact H|].
  exact (proj1 (services_agree_up_to_confidence
                  (pyq "{'first_name': 'Max', 'city': 'Bonn'}")
                  (py "personalausweis") H)).
Defined.





Lemma py_int_of_Z (q : Q) (n : Z) : (q == inject_Z n)%Q -> py_int q = n.
Proof.
  unfold Qeq, py_int, inject_Z. simpl. intros H.
  rewrite Z.mul_1_r in H. rewrite H. apply Z.quot_mul. discriminate.
Qed.

Lemma Qmax2_cases (a b : Q) : Qmax2 a b = a \/ Qmax2 a b = b.
Proof. unfold Qmax2. destruct (Qle_bool a b); auto. Qed.

Lemma Qabs_val_diff (a b : Z) :
  (Qabs_val (Qminus (inject_Z a) (inject_Z b)) == inject_Z (Z.abs (a - b)))%Q.
Proof.
  unfold Qabs_val, Qle_bool, Qminus, Qplus, Qopp, inject_Z. simpl.
  destruct (Z.leb_spec 0 ((a * 1 + - b * 1) * 1)); unfold Qeq; simpl; lia.
Qed.

Lemma Qminus_self (a : Z) : (Qminus (inject_Z a) (inject_Z a) == 0)%Q.
Proof. unfold Qminus, Qplus, Qopp, inject_Z, Qeq. simpl. lia. Qed.

Lemma rectangle_destination (cv : cv2_api) (approx : contour) (x y w h : Z) :
  norm_on_axes cv ->
  (0 < w)%Z -> (0 < h)%Z ->
  (forall p, In p approx <-> In p [ (x, y); (x + w, y); (x + w, y + h); (x, y + h) ]%Z) ->
  dst_width cv (candidate_rect approx) = w /\ dst_height cv (candidate_rect approx) = h.
Proof.
  intros Hn Hw Hh Hin.
  rewrite (candidate_rect_rectangle approx x y w h Hw Hh Hin).
  unfold dst_width, dst_height, pt_sub. cbn [fst snd].
  split.
  - apply py_int_of_Z.
    destruct (Qmax2_cases
                (np_linalg_norm cv
                   (Qminus (inject_Z (x + w)) (inject_Z x),
                    Qminus (inject_Z (y + h)) (inject_Z (y + h))))
                (np_linalg_norm cv
                   (Qminus (inject_Z (x + w)) (inject_Z x),
                    Qminus (inject_Z y) (inject_Z y)))) as [-> | ->];
      (rewrite (proj1 (Hn _)) by apply Qminus_self);
      cbn [fst]; rewrite Qabs_val_diff;
      replace (Z.abs (x + w - x)) with w by lia; reflexivity.
  - apply py_int_of_Z.
    destruct (Qmax2_cases
                (np_linalg_norm cv
                   (Qminus (inject_Z (x + w)) (inject_Z (x + w)),
                    Qminus (inject_Z y) (inject_Z (y + h))))
                (np_linalg_norm cv
                   (Qminus (inject_Z x) (inject_Z x),
                    Qminus (inject_Z y) (inject_Z (y + h))))) as [-> | ->];
      (rewrite (proj2 (Hn _)) by apply Qminus_self);
      cbn [snd]; rewrite Qabs_val_diff;
      replace (Z.abs (y - (y + h))) with h by lia; reflexivity.
Qed.

(** X18.  A rectangle parallel to the axes is cropped to its own size:
    whatever the order of its corners in the contour, the destination
    rectangle of a [w] x [h] rectangle is [w] wide and [h] high, so that
    the perspective transform rejects it exactly when [w] or [h] is
    below 100, and otherwise asks the warp for an image of width [w] and
    height [h]. *)
Theorem rectangle_cropped_to_size (cv : cv2_api) (img : ndarray cv)
    (approx : contour) (x y w h : Z) :
  norm_on_axes cv ->
  (0 < w)%Z -> (0 < h)%Z ->
  (forall p, In p approx <-> In p [ (x, y); (x + w, y); (x + w, y + h); (x, y + h) ]%Z) ->
  dst_width cv (candidate_rect approx) = w
  /\ dst_height cv (candidate_rect approx) = h
  /\ (_perspective_transform cv img (candidate_rect approx) = Ret None
      <-> (w < 100 \/ h < 100)%Z)
  /\ (forall out,
        _perspective_transform cv img (candidate_rect approx) = Ret (Some out) ->
        exists m, cv2_warpPerspective cv img m (w, h) = Ret out).
Proof.
  intros Hn Hw Hh Hin.
  destruct (rectangle_destination cv approx x y w h Hn Hw Hh Hin) as [Ew Eh].
  split; [exact Ew|]. split; [exact Eh|].
  pose proof (_perspective_transform_cases cv img (candidate_rect approx)) as [Hsmall Hsome].
  rewrite Ew, Eh in Hsmall, Hsome. split.
  - split; [|exact Hsmall].
    intros Hnone. unfold _perspective_transform in Hnone.
    destruct (candidate_rect approx) as [[[tl tr] br] bl].
    rewrite Ew, Eh in Hnone.
    destruct ((w <? 100) || (h <? 100))%Z eqn:E.
    + apply orb_true_iff in E. rewrite !Z.ltb_lt in E. exact E.
    + destruct (cv2_getPerspectiveTransform cv _ _) as [m|e]; cbn [bind] in Hnone;
        [|discriminate].
      destruct (cv2_warpPerspective cv img m _) as [o|e]; cbn [bind] in Hnone;
        discriminate.
  - intros out Hout. apply Hsome in Hout. apply Hout.
Qed.

Lemma sim_norm_on_axes : norm_on_axes Sim.cv2.
Proof.
  intros [a b]. cbn [fst snd Sim.cv2 np_linalg_norm]. unfold Sim.norm. cbn [fst snd].
  assert (Hz : forall q : Q, (q == 0)%Q -> (Qabs_val q == 0)%Q).
  { intros q Hq. unfold Qabs_val. destruct (Qle_bool 0 q); rewrite Hq; reflexivity. }
  split; intros H; rewrite (Hz _ H); ring.
Qed.

(** X18 on the card of the simulated picture, listed from its
    bottom-right corner. *)
Lemma rectangle_cropped_to_size_witness :
  norm_on_axes Sim.cv2
  /\ dst_width Sim.cv2 (candidate_rect [ (600, 420); (600, 80); (100, 80); (100, 420) ]%Z)
     = 500%Z
  /\ dst_height Sim.cv2 (candidate_rect [ (600, 420); (600, 80); (100, 80); (100, 420) ]%Z)
     = 340%Z.
Proof.
  split; [exact sim_norm_on_axes|].
  assert (Hin : forall p,
             In p [ (600, 420); (600, 80); (100, 80); (100, 420) ]%Z <->
             In p [ (100, 80); (100 + 500, 80); (100 + 500, 80 + 340); (100, 80 + 340) ]%Z)
    by (intros p; simpl; intuition).
  destruct (rectangle_cropped_to_size Sim.cv2 Sim.card_on_table _ 100 80 500 340
              sim_norm_on_axes ltac:(lia) ltac:(lia) Hin) as [Ew [Eh _]].
  split; [exact Ew | exact Eh].
Defined.

(** ** The fence strategy *)

Lemma strip_prefix_app_other (p s w : pystr) (x : pychar) :
  ~ In x p ->
  strip_prefix p (s ++ x :: w) = option_map (fun r => r ++ x :: w) (strip_prefix p s).
Proof.
  revert s. induction p as [|y p IH]; intros s Hno; simpl; [reflexivity|].
  destruct s as [|z s]; simpl.
  - destruct (N.eqb_spec y x) as [->|]; [exfalso; apply Hno; left; reflexivity|reflexivity].
  - destruct (N.eqb y z); [|reflexivity].
    apply IH. intros H. apply Hno. right; exact H.
Qed.

Lemma lstrip_app_other (s w : pystr) (x : pychar) :
  py_isspace x = false -> lstrip (s ++ x :: w) = lstrip s ++ x :: w.
Proof.
  intros Hx. induction s as [|c s IH]; simpl.
  - rewrite Hx. reflexivity.
  - destruct (py_isspace c); [exact IH | reflexivity].
Qed.

Lemma fence_at_other_head (c : pychar) (t : pystr) :
  c <> 96%N -> Re.fence_at (c :: t) = None.
Proof.
  intros Hc. unfold Re.fence_at.
  change Re.FENCE with (96%N :: py "``"). cbn [strip_prefix].
  destruct (N.eqb_spec 96 c) as [E|]; [congruence | reflexivity].
Qed.

Lemma lazy_until_fence_body (b post : pystr) :
  ~ In 96%N b ->
  exists g, Re.lazy_until_fence (b ++ Re.FENCE ++ post) = Some g /\ (b = g \/ b = g ++ NL).
Proof.
  induction b as [|x b IH]; intros Hno.
  - exists []. split; [reflexivity | left; reflexivity].
  - assert (Hx : x <> 96%N) by (intros ->; apply Hno; left; reflexivity).
    assert (Hb : ~ In 96%N b) by (intros H; apply Hno; right; exact H).
    destruct (IH Hb) as [g [Hg Hcase]].
    change ((x :: b) ++ Re.FENCE ++ post) with (x :: (b ++ Re.FENCE ++ post)).
    cbn [Re.lazy_until_fence].
    destruct (strip_prefix (NL ++ Re.FENCE) (x :: b ++ Re.FENCE ++ post)) as [r|] eqn:E1.
    + exists []. split; [reflexivity|]. right.
      apply strip_prefix_spec in E1.
      change (NL ++ Re.FENCE) with (10%N :: 96%N :: py "``") in E1.
      simpl in E1. injection E1 as -> E1.
      destruct b as [|y b]; [reflexivity|].
      simpl in E1. injection E1 as -> _. exfalso. apply Hb. left; reflexivity.
    + assert (E2 : strip_prefix Re.FENCE (x :: b ++ Re.FENCE ++ post) = None).
      { change Re.FENCE with (96%N :: py "``") at 1. cbn [strip_prefix].
        destruct (N.eqb_spec 96 x) as [E|]; [congruence | reflexivity]. }
      rewrite E2. rewrite Hg. exists (x :: g). split; [reflexivity|].
      destruct Hcase as [-> | ->]; [left | right]; reflexivity.
Qed.

Lemma search_hit {A} (match_at : pystr -> option A) (s : pystr) (m : A) :
  match_at s = Some m -> Re.search match_at s = Some m.
Proof. intros H. destruct s; simpl; rewrite H; reflexivity. Qed.

Lemma strip_lstrip (s : pystr) : strip (lstrip s) = strip s.
Proof. unfold strip. rewrite lstrip_idempotent. reflexivity. Qed.

Lemma search_fence_first_block (pre c post : pystr) :
  ~ In 96%N pre -> ~ In 96%N c ->
  exists g,
    Re.search Re.fence_at (pre ++ Re.FENCE ++ c ++ Re.FENCE ++ post) = Some g
    /\ strip g = fence_content c.
Proof.
  intros Hpre Hc.
  rewrite search_skip
    by (intros x t Hin; apply fence_at_other_head; intros ->; apply Hpre; exact Hin).
  set (c' := match strip_prefix (py "json") c with Some r => r | None => c end).
  assert (Hc' : ~ In 96%N (lstrip c')).
  { intros H. apply lstrip_incl in H. apply Hc. unfold c' in H.
    destruct (strip_prefix (py "json") c) as [r|] eqn:E; [|exact H].
    apply (strip_prefix_incl _ _ _ _ E). exact H. }
  destruct (lazy_until_fence_body (lstrip c') post Hc') as [g [Hg Hcase]].
  exists g. split.
  - assert (Hat : Re.fence_at (Re.FENCE ++ c ++ Re.FENCE ++ post) = Some g).
    { unfold Re.fence_at. rewrite strip_prefix_app.
      change (c ++ Re.FENCE ++ post) with (c ++ 96%N :: (py "``" ++ post)).
      rewrite strip_prefix_app_other
        by (vm_compute; intros H; repeat (destruct H as [H|H]; [discriminate H|]); exact H).
      match goal with
      | |- Re.lazy_until_fence (lstrip ?m) = _ =>
          replace m with (c' ++ 96%N :: (py "``" ++ post))
            by (unfold c'; destruct (strip_prefix (py "json") c); reflexivity)
      end.
      rewrite lstrip_app_other by reflexivity. exact Hg. }
    apply search_hit. exact Hat.
  - unfold fence_content. fold c'. rewrite <- (strip_lstrip c').
    destruct Hcase as [-> | ->]; [reflexivity|].
    symmetry. apply (strip_pad [] g NL); repeat constructor.
Qed.

(** X19.  The fence strategy reads the first fenced block: of a text
    that holds no backquote before a fence, a fenced text without
    backquote and the closing fence, the search returns the fenced text,
    less an opening [json] tag and the whitespace around it.  When this
    is a JSON object, and the text as a whole is not, the parser returns
    it, whatever braces the text holds before the fence. *)
Theorem fence_strategy_first_block (pre c post : pystr) :
  ~ In 96%N pre -> ~ In 96%N c ->
  let text := pre ++ Re.FENCE ++ c ++ Re.FENCE ++ post in
  (exists g, Re.search Re.fence_at text = Some g /\ strip g = fence_content c)
  /\ (contains Re.THINK_OPEN text = false ->
      as_dict (Json.loads (strip text)) = None ->
      forall d, as_dict (Json.loads (fence_content c)) = Some d ->
      try_parse_json text = Some d /\ VisionService.try_parse_json text = Some d).
Proof.
  intros Hpre Hc text.
  destruct (search_fence_first_block pre c post Hpre Hc) as [g [Hs Hg]].
  split; [exists g; split; assumption|].
  intros Hthink Hdirect d Hd.
  assert (He : is_empty text = false).
  { subst text. destruct pre; reflexivity. }
  split.
  - rewrite try_parse_json_unfold. rewrite He, (sub_think_no_marker _ Hthink), Hdirect.
    unfold later_strategies. rewrite search_fence_strip. fold text in Hs.
    rewrite Hs, Hg, Hd. reflexivity.
  - unfold VisionService.try_parse_json. rewrite Hdirect. fold text in Hs.
    rewrite Hs, Hg, Hd. reflexivity.
Qed.

(** X19 on an answer that shows an example object before the fenced
    result. *)
Lemma fence_strategy_first_block_witness :
  (~ In 96%N (pyq "Like {'a': 'b'}: ") /\ ~ In 96%N (py "json" ++ NL ++ pyq "{'c': 'd'}" ++ NL))
  /\ try_parse_json (pyq "Like {'a': 'b'}: " ++ Re.FENCE
                     ++ (py "json" ++ NL ++ pyq "{'c': 'd'}" ++ NL) ++ Re.FENCE ++ [])
     = Some [ (py "c", JString (py "d")) ].
Proof.
  assert (H1 : ~ In 96%N (pyq "Like {'a': 'b'}: ")).
  { vm_compute. intros H. repeat (destruct H as [H | H]; [discriminate H|]). exact H. }
  assert (H2 : ~ In 96%N (py "json" ++ NL ++ pyq "{'c': 'd'}" ++ NL)).
  { vm_compute. intros H. repeat (destruct H as [H | H]; [discriminate H|]). exact H. }
  split; [split; assumption|].
  apply (proj2 (fence_strategy_first_block _ _ [] H1 H2)); vm_compute; reflexivity.
Defined.
